(** * Themed Tags: colour model, accent-variable discovery and style injection

    A shallow embedding of the plugin's TypeScript sources:
    - the colour conversions [hexToHsl], [hslToRgb], [rgbToHsl], [hslToHex],
      [parseHslValue] and [parseRgbValue];
    - [getAccentVariables] over the document's style sheets;
    - [applyTagColors], [setFileThemeColor] and their [remove...] counterparts
      over the children of [document.head] and the inline style of
      [document.body].

    JavaScript numbers are IEEE 754 binary64 values, modelled by Rocq's
    primitive floats (same format, round to nearest even), so every
    arithmetic step below is the one the engine performs.  JavaScript strings
    are modelled by [string]; a character stands for one code unit below
    256. *)

From Stdlib Require Import Bool List Permutation ZArith QArith Qabs Qround Lia.
From Stdlib Require Import Ascii String.
From Stdlib Require Import Uint63 Floats.
Import ListNotations.

Local Open Scope list_scope.
Local Open Scope string_scope.

(** ** JavaScript built-ins used by the plugin *)

Module JS.

(** *** Strings *)

(** [WhiteSpace] and [LineTerminator] code units below 256: what [\s] matches
    and what [trim] strips. *)
Definition isWhiteSpace (c : ascii) : bool :=
  match nat_of_ascii c with
  | 9 | 10 | 11 | 12 | 13 | 32 | 160 => true
  | _ => false
  end%nat.

(** [\d] *)
Definition isDigit (c : ascii) : bool :=
  (48 <=? nat_of_ascii c)%nat && (nat_of_ascii c <=? 57)%nat.

Definition startsWith (s p : string) : bool := String.prefix p s.

Definition endsWith (s p : string) : bool :=
  let n := String.length s in
  let k := String.length p in
  (k <=? n)%nat && String.eqb (String.substring (n - k) k s) p.

Fixpoint includes (s p : string) : bool :=
  String.prefix p s ||
  match s with
  | EmptyString => false
  | String _ t => includes t p
  end.

(** [s.substring(start, end)] for [start <= end]. *)
Definition substring (s : string) (start stop : nat) : string :=
  String.substring start (stop - start) s.

Fixpoint trimStart (s : string) : string :=
  match s with
  | String c t => if isWhiteSpace c then trimStart t else s
  | EmptyString => EmptyString
  end.

Fixpoint rev_string (s acc : string) : string :=
  match s with
  | EmptyString => acc
  | String c t => rev_string t (String c acc)
  end.

Definition trimEnd (s : string) : string :=
  rev_string (trimStart (rev_string s "")) "".

Definition trim (s : string) : string := trimEnd (trimStart s).

(** [s.replace(/^#/, "")] *)
Definition stripHash (s : string) : string :=
  match s with
  | String "#" t => t
  | _ => s
  end.

(** [s.padStart(2, "0")] *)
Definition padStart2 (s : string) : string :=
  match String.length s with
  | 0%nat => "00"
  | 1%nat => "0" ++ s
  | _ => s
  end.

(** *** Integers to digits *)

Definition digitChar (d : Z) : ascii :=
  if (d <? 10)%Z then ascii_of_nat (48 + Z.to_nat d)
  else ascii_of_nat (87 + Z.to_nat d).

Fixpoint digitsAux (fuel : nat) (radix n : Z) (acc : string) : string :=
  match fuel with
  | O => acc
  | S fuel' =>
      let acc' := String (digitChar (n mod radix)) acc in
      if (n / radix =? 0)%Z then acc' else digitsAux fuel' radix (n / radix) acc'
  end.

(** The digits of [n >= 0] in the given radix (2..16), most significant
    first, lowercase; ["0"] for zero. *)
Definition natToString (radix n : Z) : string :=
  digitsAux (S (Z.to_nat (Z.log2 n))) radix n "".

Definition intToString (radix n : Z) : string :=
  if (n <? 0)%Z then "-" ++ natToString radix (- n) else natToString radix n.

Definition digitValue (c : ascii) : option Z :=
  let n := Z.of_nat (nat_of_ascii c) in
  if (48 <=? n)%Z && (n <=? 57)%Z then Some (n - 48)%Z
  else if (97 <=? n)%Z && (n <=? 102)%Z then Some (n - 87)%Z
  else if (65 <=? n)%Z && (n <=? 70)%Z then Some (n - 55)%Z
  else None.

(** The longest prefix of digits valid in [radix], as a number, with the
    count of digits read. *)
Fixpoint readDigits (radix : Z) (s : string) (acc : Z) (count : nat) : Z * nat :=
  match s with
  | String c t =>
      match digitValue c with
      | Some d => if (d <? radix)%Z then readDigits radix t (acc * radix + d)%Z (S count)
                  else (acc, count)
      | None => (acc, count)
      end
  | EmptyString => (acc, count)
  end.

(** *** Numbers *)

Local Open Scope float_scope.

Definition isPositiveZero (x : float) : bool := is_zero x && negb (get_sign x).
Definition isNegativeZero (x : float) : bool := is_zero x && get_sign x.

(** [Math.max(...xs)]: [NaN] if any argument is [NaN]; [+0] is larger
    than [-0]. *)
Definition Math_max (xs : list float) : float :=
  if existsb is_nan xs then nan
  else fold_left
         (fun highest x =>
            if (isPositiveZero x && isNegativeZero highest) || (highest <? x)
            then x else highest)
         xs neg_infinity.

(** [Math.min(...xs)] *)
Definition Math_min (xs : list float) : float :=
  if existsb is_nan xs then nan
  else fold_left
         (fun lowest x =>
            if (isNegativeZero x && isPositiveZero lowest) || (x <? lowest)
            then x else lowest)
         xs infinity.

(** [2^52]: from here on every binary64 value is an integer. *)
Definition two52 : float := 4503599627370496.

(** For [0.5 <= a < 2^52], the 53-bit significand [m] of [a] and the number
    [sh] of its fractional bits ([1 <= sh <= 53]): [a = m / 2^sh]. *)
Definition fixedPoint (a : float) : int * int :=
  let (f, e) := frshiftexp a in
  (normfr_mantissa f, (2154 - e)%uint63).

(** [Math.round(x)]: the integer nearest to [x], ties towards [+Infinity];
    the sign of [x] is kept when the result is zero. *)
Definition Math_round (x : float) : float :=
  if is_nan x then x
  else if two52 <=? abs x then x
  else if abs x <? 0.5 then (if get_sign x then neg_zero else zero)
  else
    let (m, sh) := fixedPoint (abs x) in
    let half := (1 << (sh - 1))%uint63 in
    if get_sign x then
      (* -ceil(|x| - 1/2) *)
      let n := (((m - half) + ((1 << sh) - 1)) >> sh)%uint63 in
      if (n =? 0)%uint63 then neg_zero else - of_uint63 n
    else
      (* floor(x + 1/2) *)
      of_uint63 ((m + half) >> sh)%uint63.

(** The value of a finite number as an exact fraction [m * 2^e]. *)
Definition toFraction (x : float) : option (Z * Z) :=
  match Prim2SF x with
  | S754_zero _ => Some (0%Z, 0%Z)
  | S754_finite sign m e => Some (if sign then Z.neg m else Z.pos m, e)
  | _ => None
  end.

(** The number nearest to [m * 2^e] (ties to even; overflow gives an
    infinity). *)
Definition ofFraction (m e : Z) : float :=
  SF2Prim (binary_normalize prec emax m e false).

(** The number nearest to the integer [n]: [Number(digits)]. *)
Definition ofInteger (n : Z) : float := ofFraction n 0.

(** The integer part of a finite number (towards zero). *)
Definition truncate (x : float) : Z :=
  match toFraction x with
  | Some (m, e) => if (0 <=? e)%Z then (m * 2 ^ e)%Z else Z.quot m (2 ^ (- e))
  | None => 0%Z
  end.

(** [x % y]: the remainder of the truncating division, exact, with the sign
    of [x]. *)
Definition remainder (x y : float) : float :=
  if is_nan x || is_nan y || is_infinity x || is_zero y then nan
  else if is_infinity y then x
  else if is_zero x then x
  else
    match toFraction x, toFraction y with
    | Some (mx, ex), Some (my, ey) =>
        let e := Z.min ex ey in
        let r := Z.rem (mx * 2 ^ (ex - e)) (my * 2 ^ (ey - e)) in
        if (r =? 0)%Z then (if get_sign x then neg_zero else zero)
        else ofFraction r e
    | _, _ => nan
    end.

(** [parseInt(s, 16)]: leading white space, an optional sign, an optional
    [0x] prefix, then the longest run of hexadecimal digits; [NaN] when that
    run is empty. *)
Definition parseInt16 (s : string) : float :=
  let s := trimStart s in
  let '(negative, s) :=
    match s with
    | String "-" t => (true, t)
    | String "+" t => (false, t)
    | _ => (false, s)
    end in
  let s :=
    match s with
    | String "0" (String "x" t) => t
    | String "0" (String "X" t) => t
    | _ => s
    end in
  let '(n, count) := readDigits 16 s 0 0 in
  match count with
  | O => nan
  | _ => if negative then - ofInteger n else ofInteger n
  end.

(** [Number(s)] for a run of decimal digits [s] (the capture of [\d+]). *)
Definition Number_ofDigits (s : string) : float :=
  ofInteger (fst (readDigits 10 s 0 0)).

(** *** Number to string, radix 10

    [shortestDecimal] finds the digits the engine prints for a positive
    finite number [m * 2^e]: the fewest decimal digits [s] and the exponent
    [n] with [s * 10^(n-k)] rounding to the number; among several, the
    nearest one. *)

Definition pow (b : Z) (p : Z) : Q :=
  if (0 <=? p)%Z then inject_Z (b ^ p) else (1 # Z.to_pos (b ^ (- p)))%Q.

(** The set of reals that round to [m * 2^e], as bounds and whether they are
    included. *)
Definition roundingInterval (m : positive) (e : Z) : Q * Q * bool :=
  let hi := (inject_Z (2 * Z.pos m + 1) * pow 2 (e - 1))%Q in
  let lo :=
    if (Z.pos m =? 2 ^ 52)%Z && (-1074 <? e)%Z
    then (inject_Z (4 * Z.pos m - 1) * pow 2 (e - 2))%Q
    else (inject_Z (2 * Z.pos m - 1) * pow 2 (e - 1))%Q in
  (lo, hi, Z.even (Z.pos m)).

Definition roundsTo (iv : Q * Q * bool) (y : Q) : bool :=
  let '(lo, hi, closed) := iv in
  if closed then Qle_bool lo y && Qle_bool y hi
  else negb (Qle_bool y lo) && negb (Qle_bool hi y).

(** [n] with [10^(n-1) <= v < 10^n], searched from an estimate. *)
Fixpoint decimalExponent (fuel : nat) (v : Q) (n : Z) : Z :=
  match fuel with
  | O => n
  | S fuel' =>
      if Qle_bool (pow 10 n) v then decimalExponent fuel' v (n + 1)
      else if Qle_bool (pow 10 (n - 1)) v then n
      else decimalExponent fuel' v (n - 1)
  end.

Definition Qdist (a b : Q) : Q := Qabs (a - b).

(** The significand with [k] digits, if one rounds to [v]. *)
Definition candidate (iv : Q * Q * bool) (v : Q) (n0 : Z) (k : Z) : option (Z * Z) :=
  let p := (n0 - k)%Z in
  let s1 := Qfloor (v / pow 10 p) in
  let s2 := (s1 + 1)%Z in
  let y1 := (inject_Z s1 * pow 10 p)%Q in
  let y2 := (inject_Z s2 * pow 10 p)%Q in
  match roundsTo iv y1, roundsTo iv y2 with
  | true, false => Some (s1, p)
  | false, true => Some (s2, p)
  | true, true =>
      match Qcompare (Qdist y1 v) (Qdist y2 v) with
      | Lt => Some (s1, p)
      | Gt => Some (s2, p)
      | Eq => Some (if Z.even s1 then s1 else s2, p)
      end
  | false, false => None
  end.

Fixpoint shortest (fuel : nat) (iv : Q * Q * bool) (v : Q) (n0 : Z) (k : Z) : Z * Z :=
  match fuel with
  | O => (0%Z, 0%Z)
  | S fuel' =>
      match candidate iv v n0 k with
      | Some sp => sp
      | None => shortest fuel' iv v n0 (k + 1)
      end
  end.

Fixpoint stripZeros (fuel : nat) (s p : Z) : Z * Z :=
  match fuel with
  | O => (s, p)
  | S fuel' =>
      if (s mod 10 =? 0)%Z && negb (s =? 0)%Z then stripZeros fuel' (s / 10) (p + 1)
      else (s, p)
  end.

(** The digits and the exponent [n] (the position of the decimal point). *)
Definition shortestDecimal (m : positive) (e : Z) : string * Z :=
  let v := (inject_Z (Z.pos m) * pow 2 e)%Q in
  let estimate := ((Z.log2 (Z.pos m) + e) * 30103 / 100000)%Z in
  let n0 := decimalExponent 8 v estimate in
  let '(s, p) := shortest 17 (roundingInterval m e) v n0 1 in
  let '(s, p) := stripZeros 17 s p in
  let digits := natToString 10 s in
  (digits, (p + Z.of_nat (String.length digits))%Z).

Fixpoint zeros (n : nat) : string :=
  match n with
  | O => ""
  | S n' => String "0" (zeros n')
  end.

(** The layout of the digits: plain integer, decimal point, leading
    ["0."], or exponent notation. *)
Definition layout (digits : string) (n : Z) : string :=
  let k := Z.of_nat (String.length digits) in
  if (k <=? n)%Z && (n <=? 21)%Z then
    digits ++ zeros (Z.to_nat (n - k))
  else if (0 <? n)%Z && (n <=? 21)%Z then
    String.substring 0 (Z.to_nat n) digits ++ "." ++
    String.substring (Z.to_nat n) (Z.to_nat (k - n)) digits
  else if (-6 <? n)%Z && (n <=? 0)%Z then
    "0." ++ zeros (Z.to_nat (- n)) ++ digits
  else
    let exponent :=
      (if (0 <=? n - 1)%Z then "+" else "-") ++ natToString 10 (Z.abs (n - 1)) in
    match digits with
    | String d EmptyString => String d ("e" ++ exponent)
    | String d rest => String d ("." ++ rest ++ "e" ++ exponent)
    | EmptyString => ""
    end.

(** [String(x)], as a template literal prints a number. *)
Definition Number_toString (x : float) : string :=
  match Prim2SF x with
  | S754_nan => "NaN"
  | S754_zero _ => "0"
  | S754_infinity sign => if sign then "-Infinity" else "Infinity"
  | S754_finite sign m e =>
      let '(digits, n) := shortestDecimal m e in
      (if sign then "-" else "") ++ layout digits n
  end.

(** [x.toString(16)] for the results of [Math.round]: an integer, [NaN] or
    an infinity. *)
Definition Number_toString16 (x : float) : string :=
  match Prim2SF x with
  | S754_nan => "NaN"
  | S754_zero _ => "0"
  | S754_infinity sign => if sign then "-Infinity" else "Infinity"
  | S754_finite _ _ _ => intToString 16 (truncate x)
  end.

Local Close Scope float_scope.

End JS.

Import JS.

(** ** The document, as far as the plugin touches it *)

(** A [<style>] element: its [id] and its [textContent]. *)
Record StyleElement : Type := mkStyle {
  id : string;
  textContent : string
}.

(** The mutable part: the style elements among the children of
    [document.head] in document order, the custom properties set on
    [document.body.style] (name, value, priority), and the lines written
    with [console.error]. *)
Record World : Type := mkWorld {
  head : list StyleElement;
  bodyStyle : list (string * (string * string));
  console : list string
}.

(** A rule of a style sheet: a [CSSStyleRule] with the property names of its
    declaration block ([style[0]] .. [style[style.length - 1]]), or a rule
    of another kind (at-rules and the like). *)
Inductive CSSRule : Type :=
| CSSStyleRule (style : list string)
| OtherRule.

(** A style sheet whose [cssRules] can be read, or one for which reading
    [cssRules] throws (a cross-origin sheet). *)
Inductive StyleSheet : Type :=
| Readable (cssRules : list CSSRule)
| Unreadable.

(** What the plugin reads from the browser during one call:
    [document.styleSheets] and
    [getComputedStyle(document.documentElement).getPropertyValue]. *)
Record StyleEnv : Type := mkEnv {
  styleSheets : list StyleSheet;
  getPropertyValue : string -> string
}.

(** A plain object with string values, as its own properties in creation
    order (keys distinct). *)
Definition JSObject : Type := list (string * string).

(** *** State passing *)

Definition M (A : Type) : Type := World -> A * World.

Definition ret {A : Type} (a : A) : M A := fun w => (a, w).

Definition bind {A B : Type} (m : M A) (k : A -> M B) : M B :=
  fun w => let (a, w') := m w in k a w'.

Notation "x <- m ;; k" := (bind m (fun x => k))
  (at level 61, m at next level, right associativity).
Notation "m ;;; k" := (bind m (fun _ => k))
  (at level 61, right associativity).

Definition exec {A : Type} (m : M A) (w : World) : World := snd (m w).
Definition eval {A : Type} (m : M A) (w : World) : A := fst (m w).

(** [arr.forEach] with an accumulator captured by the callback. *)
Fixpoint forEach {A S : Type} (xs : list A) (body : S -> A -> M S) (acc : S) : M S :=
  match xs with
  | [] => ret acc
  | x :: xs' => acc' <- body acc x ;; forEach xs' body acc'
  end.

Definition console_error (line : string) : M unit :=
  fun w => (tt, mkWorld (head w) (bodyStyle w) (console w ++ [line])%list).

(** [document.head.appendChild(style)] for a new element. *)
Definition appendChild (style : StyleElement) : M unit :=
  fun w => (tt, mkWorld (head w ++ [style])%list (bodyStyle w) (console w)).

Fixpoint setLast (text : string) (els : list StyleElement) : list StyleElement :=
  match els with
  | [] => []
  | [e] => [mkStyle (id e) text]
  | e :: els' => e :: setLast text els'
  end.

(** [style.textContent = css] for the element appended last. *)
Definition setTextContent (css : string) : M unit :=
  fun w => (tt, mkWorld (setLast css (head w)) (bodyStyle w) (console w)).

(** [document.getElementById(name)]: the first element with that id. *)
Definition getElementById (name : string) (w : World) : option StyleElement :=
  find (fun e => String.eqb (id e) name) (head w).

Fixpoint removeFirst (name : string) (els : list StyleElement) : list StyleElement :=
  match els with
  | [] => []
  | e :: els' => if String.eqb (id e) name then els' else e :: removeFirst name els'
  end.

(** [const style = document.getElementById(name); if (style) style.remove()] *)
Definition removeById (name : string) : M unit :=
  fun w => (tt, mkWorld (removeFirst name (head w)) (bodyStyle w) (console w)).

Fixpoint setEntry (name : string) (v : string * string)
    (ps : list (string * (string * string))) : list (string * (string * string)) :=
  match ps with
  | [] => [(name, v)]
  | (n, v') :: ps' =>
      if String.eqb n name then (n, v) :: ps' else (n, v') :: setEntry name v ps'
  end.

(** [document.body.style.setProperty(name, value, priority)] *)
Definition setProperty (name value priority : string) : M unit :=
  fun w => (tt, mkWorld (head w) (setEntry name (value, priority) (bodyStyle w)) (console w)).

(** [document.body.style.removeProperty(name)] *)
Definition removeProperty (name : string) : M unit :=
  fun w => (tt, mkWorld (head w)
                  (filter (fun p => negb (String.eqb (fst p) name)) (bodyStyle w))
                  (console w)).

(** *** [for (const key in obj)]

    Keys that are array indices come first, in ascending numeric order;
    the other keys follow in creation order. *)

Definition arrayIndex (key : string) : option Z :=
  let '(n, count) := readDigits 10 key 0 0 in
  if (0 <? count)%nat && (count =? String.length key)%nat
     && String.eqb (natToString 10 n) key && (n <? 2 ^ 32 - 1)%Z
  then Some n else None.

Fixpoint insertIndex (n : Z) (key : string) (sorted : list (Z * string)) : list (Z * string) :=
  match sorted with
  | [] => [(n, key)]
  | (n', key') :: rest =>
      if (n <? n')%Z then (n, key) :: sorted else (n', key') :: insertIndex n key rest
  end.

Definition forInKeys (obj : JSObject) : list string :=
  let indices :=
    fold_left (fun acc kv => match arrayIndex (fst kv) with
                             | Some n => insertIndex n (fst kv) acc
                             | None => acc
                             end) obj [] in
  let others :=
    filter (fun key => match arrayIndex key with Some _ => false | None => true end)
           (map fst obj) in
  (map snd indices ++ others)%list.

(** [obj[key]] for a key of the object. *)
Fixpoint getProperty (obj : JSObject) (key : string) : string :=
  match obj with
  | [] => "undefined"
  | (k, v) :: obj' => if String.eqb k key then v else getProperty obj' key
  end.

(** ** Colours *)

Record HSL : Type := mkHSL { hsl_h : float; hsl_s : float; hsl_l : float }.
Record RGB : Type := mkRGB { rgb_r : float; rgb_g : float; rgb_b : float }.

(** ** The patterns [/^hsl\((\d+),\s*(\d+)%,\s*(\d+)%\)$/] and
    [/^rgb\((\d+),\s*(\d+),\s*(\d+)\)$/]

    Each piece of the pattern consumes a prefix of what is left of the
    input.  The greedy classes never have to give characters back: [\d+] is
    followed by [,], [%] or [)], and [\s*] by a digit. *)

Module Pattern.

(** A literal. *)
Fixpoint expect (lit s : string) : option string :=
  match lit, s with
  | EmptyString, _ => Some s
  | String a lit', String c s' => if Ascii.eqb a c then expect lit' s' else None
  | String _ _, EmptyString => None
  end.

(** The longest run of digits and the rest. *)
Fixpoint span (p : ascii -> bool) (s : string) : string * string :=
  match s with
  | String c s' =>
      if p c then let (run, rest) := span p s' in (String c run, rest)
      else (EmptyString, s)
  | EmptyString => (EmptyString, EmptyString)
  end.

(** [(\d+)] *)
Definition digits1 (s : string) : option (string * string) :=
  match span isDigit s with
  | (EmptyString, _) => None
  | (run, rest) => Some (run, rest)
  end.

(** [\s*] *)
Definition spaces (s : string) : string := snd (span isWhiteSpace s).

(** [$]: the end of the input. *)
Definition atEnd (s : string) : bool :=
  match s with
  | EmptyString => true
  | _ => false
  end.

Notation "' p <- m ;; k" := (match m with Some p => k | None => None end)
  (at level 61, p pattern, m at next level, right associativity).

(** [hsl.match(/^hsl\((\d+),\s*(\d+)%,\s*(\d+)%\)$/)]: the three captures. *)
Definition matchHsl (s : string) : option (string * string * string) :=
  ' s <- expect "hsl(" s ;;
  ' (c1, s) <- digits1 s ;;
  ' s <- expect "," s ;;
  ' (c2, s) <- digits1 (spaces s) ;;
  ' s <- expect "%," s ;;
  ' (c3, s) <- digits1 (spaces s) ;;
  ' s <- expect "%)" s ;;
  if atEnd s then Some (c1, c2, c3) else None.

(** [rgb.match(/^rgb\((\d+),\s*(\d+),\s*(\d+)\)$/)] *)
Definition matchRgb (s : string) : option (string * string * string) :=
  ' s <- expect "rgb(" s ;;
  ' (c1, s) <- digits1 s ;;
  ' s <- expect "," s ;;
  ' (c2, s) <- digits1 (spaces s) ;;
  ' s <- expect "," s ;;
  ' (c3, s) <- digits1 (spaces s) ;;
  ' s <- expect ")" s ;;
  if atEnd s then Some (c1, c2, c3) else None.

End Pattern.

(** ** [class ThemedTagsPlugin] *)

Module ThemedTagsPlugin.

Local Open Scope float_scope.

Definition parseHslValue (hsl : string) : M HSL :=
  match Pattern.matchHsl hsl with
  | None =>
      console_error ("Failed to parse HSL value: " ++ hsl) ;;;
      ret (mkHSL 0 0 50)
  | Some (h, s, l) =>
      ret (mkHSL (Number_ofDigits h) (Number_ofDigits s) (Number_ofDigits l))
  end.

Definition parseRgbValue (rgb : string) : M RGB :=
  match Pattern.matchRgb rgb with
  | None =>
      console_error ("Failed to parse RGB value: " ++ rgb) ;;;
      ret (mkRGB 0 0 0)
  | Some (r, g, b) =>
      ret (mkRGB (Number_ofDigits r) (Number_ofDigits g) (Number_ofDigits b))
  end.

Definition hexToHsl (hex : string) : HSL :=
  let hex := stripHash hex in
  let r := parseInt16 (substring hex 0 2) / 255 in
  let g := parseInt16 (substring hex 2 4) / 255 in
  let b := parseInt16 (substring hex 4 6) / 255 in
  let max := Math_max [r; g; b] in
  let min := Math_min [r; g; b] in
  let h := 0 in
  let s := 0 in
  let l := (max + min) / 2 in
  let '(h, s) :=
    if negb (max =? min) then
      let d := max - min in
      let s := if 0.5 <? l then d / (2 - max - min) else d / (max + min) in
      let h :=
        if max =? r then (g - b) / d + (if g <? b then 6 else 0)
        else if max =? g then (b - r) / d + 2
        else if max =? b then (r - g) / d + 4
        else h in
      (h / 6, s)
    else (h, s) in
  mkHSL (h * 360) (s * 100) (l * 100).

Definition hue2rgb (p q t : float) : float :=
  let t := if t <? 0 then t + 1 else t in
  let t := if 1 <? t then t - 1 else t in
  if t <? 1 / 6 then p + (q - p) * 6 * t
  else if t <? 1 / 3 then q
  else if t <? 1 / 2 then p + (q - p) * (2 / 3 - t) * 6
  else p.

Definition hslToRgb (h s l : float) : RGB :=
  let h := h / 360 in
  let s := s / 100 in
  let l := l / 100 in
  let '(r, g, b) :=
    if s =? 0 then (l, l, l)
    else
      let q := if l <? 0.5 then l * (1 + s) else l + s - l * s in
      let p := 2 * l - q in
      (hue2rgb p q (h + 1 / 3), hue2rgb p q h, hue2rgb p q (h - 1 / 3)) in
  mkRGB (Math_round (r * 255)) (Math_round (g * 255)) (Math_round (b * 255)).

Definition rgbToHsl (r g b : float) : HSL :=
  let r := r / 255 in
  let g := g / 255 in
  let b := b / 255 in
  let max := Math_max [r; g; b] in
  let min := Math_min [r; g; b] in
  let h := 0 in
  let s := 0 in
  let l := (max + min) / 2 in
  let '(h, s) :=
    if negb (max =? min) then
      let d := max - min in
      let s := if 0.5 <? l then d / (2 - max - min) else d / (max + min) in
      let h :=
        if max =? r then (g - b) / d + (if g <? b then 6 else 0)
        else if max =? g then (b - r) / d + 2
        else if max =? b then (r - g) / d + 4
        else h in
      (h / 6, s)
    else (h, s) in
  mkHSL (h * 360) (s * 100) (l * 100).

(** [accentVariables.add(name)]: a [Set] keeps the first insertion. *)
Definition setAdd (names : list string) (name : string) : list string :=
  if existsb (String.eqb name) names then names else (names ++ [name])%list.

Definition scanRule (names : list string) (rule : CSSRule) : list string :=
  match rule with
  | CSSStyleRule style =>
      fold_left (fun names name =>
                   if includes name "accent" then setAdd names name else names)
                style names
  | OtherRule => names
  end.

(** The [try] block around one sheet: reading [cssRules] is all that can
    throw, and it comes first, so a sheet is scanned whole or not at all. *)
Definition scanSheet (names : list string) (sheet : StyleSheet) : list string :=
  match sheet with
  | Readable rules => fold_left scanRule rules names
  | Unreadable => names
  end.

Definition getAccentVariables (env : StyleEnv) : list string :=
  fold_left scanSheet (styleSheets env) [].

Definition getCssVariableValue (env : StyleEnv) (variable : string) : string :=
  trim (getPropertyValue env ("--" ++ variable)).

(** [`rgb(${r}, ${g}, ${b})`] *)
Definition rgbText (r g b : float) : string :=
  "rgb(" ++ Number_toString r ++ ", " ++ Number_toString g ++ ", "
         ++ Number_toString b ++ ")".

(** [`hsl(${h}, ${s}%, ${l}%)`] *)
Definition hslText (h s l : float) : string :=
  "hsl(" ++ Number_toString h ++ ", " ++ Number_toString s ++ "%, "
         ++ Number_toString l ++ "%)".

(** The replacement for one accent variable, [None] when the variable is
    left alone ([skip], or the guard on the original value fails). *)
Definition newValueFor (env : StyleEnv) (hslColor : HSL) (variable : string)
    : M (option string) :=
  let originalValue := getCssVariableValue env variable in
  let newValue := originalValue in
  if negb (includes originalValue "var(") && negb (String.eqb originalValue "") then
    if endsWith variable "-h" || endsWith variable "-s" then
      let newValue :=
        if endsWith variable "-h" then Number_toString (hsl_h hslColor)
        else if endsWith variable "-s" then Number_toString (hsl_s hslColor) ++ "%"
        else newValue in
      ret (Some newValue)
    else if endsWith variable "-rgb" then
      rgb <- parseRgbValue originalValue ;;
      let hslParts := rgbToHsl (rgb_r rgb) (rgb_g rgb) (rgb_b rgb) in
      let rgbColor := hslToRgb (hsl_h hslColor) (hsl_s hslColor) (hsl_l hslParts) in
      ret (Some (rgbText (rgb_r rgbColor) (rgb_g rgbColor) (rgb_b rgbColor)))
    else if startsWith originalValue "hsl(" then
      hslParts <- parseHslValue originalValue ;;
      ret (Some (hslText (hsl_h hslColor) (hsl_s hslColor) (hsl_l hslParts)))
    else ret None
  else ret None.

(** The text of one override: [`--${variable}: ${newValue} !important;`] *)
Definition declaration (variable newValue : string) : string :=
  "--" ++ variable ++ ": " ++ newValue ++ " !important;".

(** The body of [accentVariables.forEach]. *)
Definition overrideStep (env : StyleEnv) (hslColor : HSL) (css variable : string)
    : M string :=
  newValue <- newValueFor env hslColor variable ;;
  match newValue with
  | Some v => ret (css ++ declaration variable v)
  | None => ret css
  end.

Definition fileThemeId : string := "themed-tags-file-theme-color".
Definition tagStyleId : string := "themed-tags-plugin-style".

Definition setFileThemeColor (env : StyleEnv) (color : string) : M unit :=
  let hslColor := hexToHsl color in
  let accentVariables := getAccentVariables env in
  css <- forEach accentVariables (overrideStep env hslColor) ":root {" ;;
  let css := css ++ " }" in
  appendChild (mkStyle fileThemeId css) ;;;
  setProperty "--accent-h" (Number_toString (hsl_h hslColor)) "important" ;;;
  setProperty "--accent-s" (Number_toString (hsl_s hslColor) ++ "%") "important".

Definition removeFileThemeColor : M unit :=
  removeById fileThemeId ;;;
  removeProperty "--accent-h" ;;;
  removeProperty "--accent-s".

(** The text of one rule:
    [`.tag[href="#${tag}"] { color: ${color} !important; }`] *)
Definition tagRule (tag color : string) : string :=
  ".tag[href=" ++ String (ascii_of_nat 34) "#" ++ tag ++ String (ascii_of_nat 34) "] { color: "
  ++ color ++ " !important; }".

Definition applyTagColors (tagColors : JSObject) : M unit :=
  appendChild (mkStyle tagStyleId "") ;;;
  let css :=
    fold_left (fun css tag => css ++ tagRule tag (getProperty tagColors tag))
              (forInKeys tagColors) "" in
  setTextContent css.

Definition removeTagColors : M unit := removeById tagStyleId.

End ThemedTagsPlugin.

(** ** [class ThemedTagsPluginSettingTab] *)

Module ThemedTagsPluginSettingTab.

Local Open Scope float_scope.

Definition hslToHex (hsl : string) : string :=
  match Pattern.matchHsl hsl with
  | None => "#000000"
  | Some (h, s, l) =>
      let h := Number_ofDigits h in
      let s := Number_ofDigits s / 100 in
      let l := Number_ofDigits l / 100 in
      let a := s * Math_min [l; 1 - l] in
      let f (n : float) : string :=
        let k := remainder (n + h / 30) 12 in
        let color := l - a * Math_max [Math_min [k - 3; 9 - k; 1]; -1] in
        padStart2 (Number_toString16 (Math_round (255 * color))) in
      "#" ++ f 0 ++ f 8 ++ f 4
  end.

End ThemedTagsPluginSettingTab.

(** ** The simpler variant of the plugin: one fixed custom property *)

Module SimpleVariant.

Definition newline : string := String (ascii_of_nat 10) "".
Definition tab : string := String (ascii_of_nat 9) "".

Definition setFileThemeColor (color : string) : M unit :=
  appendChild
    (mkStyle ThemedTagsPlugin.fileThemeId
       (newline ++ tab ++ tab ++ tab ++ ".markdown-preview-view {" ++
        newline ++ tab ++ tab ++ tab ++ tab ++ "--file-theme-color: " ++ color ++ ";" ++
        newline ++ tab ++ tab ++ tab ++ "}" ++
        newline ++ tab ++ tab)).

Definition removeFileThemeColor : M unit :=
  removeById ThemedTagsPlugin.fileThemeId.

End SimpleVariant.

(** ** The shape of the strings the patterns accept, stated on its own *)

Fixpoint allChars (p : ascii -> bool) (s : string) : bool :=
  match s with
  | EmptyString => true
  | String c s' => p c && allChars p s'
  end.

(** A non-empty run of decimal digits. *)
Definition digitRun (d : string) : Prop :=
  d <> EmptyString /\ allChars isDigit d = true.

(** A possibly empty run of white space. *)
Definition spaceRun (w : string) : Prop := allChars isWhiteSpace w = true.

(** [HslForm s h sat l]: [s] reads [hsl(h,] [sat%,] [l%)] with digit runs
    [h], [sat], [l] and optional white space after each comma. *)
Inductive HslForm : string -> string -> string -> string -> Prop :=
| HslForm_intro (d1 w1 d2 w2 d3 : string) :
    digitRun d1 -> spaceRun w1 -> digitRun d2 -> spaceRun w2 -> digitRun d3 ->
    HslForm ("hsl(" ++ d1 ++ "," ++ w1 ++ d2 ++ "%," ++ w2 ++ d3 ++ "%)") d1 d2 d3.

(** What stops a greedy run: the end of the input or a character outside
    the class. *)
Definition stops (p : ascii -> bool) (rest : string) : Prop :=
  match rest with
  | EmptyString => True
  | String c _ => p c = false
  end.

(** ** Notions used to state the properties *)

(** The style elements with a given id. *)
Definition withId (name : string) (els : list StyleElement) : list StyleElement :=
  filter (fun e => String.eqb (id e) name) els.

(** The overrides [accentVariables.forEach] writes, as (variable, new value)
    pairs in the order written. *)
Fixpoint overrides (env : StyleEnv) (hslColor : HSL) (variables : list string)
    : M (list (string * string)) :=
  match variables with
  | [] => ret []
  | variable :: rest =>
      newValue <- ThemedTagsPlugin.newValueFor env hslColor variable ;;
      more <- overrides env hslColor rest ;;
      ret (match newValue with
           | Some v => (variable, v) :: more
           | None => more
           end)
  end.

(** Their text, one declaration after the other. *)
Definition declarations (ovs : list (string * string)) : string :=
  fold_right (fun ov text => ThemedTagsPlugin.declaration (fst ov) (snd ov) ++ text)
             "" ovs.

(** The text of the block [setFileThemeColor] builds. *)
Definition themeCss (env : StyleEnv) (color : string) (w : World) : string :=
  ":root {"
  ++ declarations
       (eval (overrides env (ThemedTagsPlugin.hexToHsl color)
                        (ThemedTagsPlugin.getAccentVariables env)) w)
  ++ " }".

(** One rule per entry of the map, in [for ... in] order. *)
Definition rulesText (tagColors : JSObject) : string :=
  fold_right (fun tag text =>
                ThemedTagsPlugin.tagRule tag (getProperty tagColors tag) ++ text)
             "" (forInKeys tagColors).

(** The double quote character. *)
Definition quote : string := String (ascii_of_nat 34) "".

(** A property name with [accent] in it that some readable style sheet
    declares in a style rule. *)
Definition declaredAccent (env : StyleEnv) (name : string) : Prop :=
  exists rules style,
    In (Readable rules) (styleSheets env) /\
    In (CSSStyleRule style) rules /\
    In name style /\
    includes name "accent" = true.

(** Hex to HSL, printed the way the plugin prints an HSL value, and back
    through [hslToHex]. *)
Definition roundTrip (hex : string) : string :=
  let c := ThemedTagsPlugin.hexToHsl hex in
  ThemedTagsPluginSettingTab.hslToHex
    (ThemedTagsPlugin.hslText (hsl_h c) (hsl_s c) (hsl_l c)).

(** The channels of a colour written with six hexadecimal digits, with or
    without the leading [#]. *)
Definition hexChannels (hex : string) : option (Z * Z * Z) :=
  let hex := stripHash hex in
  let channel (i : nat) : option Z :=
    match readDigits 16 (substring hex i (i + 2)) 0 0 with
    | (n, 2%nat) => Some n
    | _ => None
    end in
  if (String.length hex =? 6)%nat then
    match channel 0%nat, channel 2%nat, channel 4%nat with
    | Some r, Some g, Some b => Some (r, g, b)
    | _, _, _ => None
    end
  else None.

Definition validHex (hex : string) : Prop := hexChannels hex <> None.

(** Two colours whose channels differ by at most one. *)
Definition withinOne (hex1 hex2 : string) : Prop :=
  match hexChannels hex1, hexChannels hex2 with
  | Some (r1, g1, b1), Some (r2, g2, b2) =>
      (Z.abs (r1 - r2) <= 1 /\ Z.abs (g1 - g2) <= 1 /\ Z.abs (b1 - b2) <= 1)%Z
  | _, _ => False
  end.

(** Two lowercase hexadecimal digits for a channel value. *)
Definition hex2 (n : Z) : string := padStart2 (natToString 16 n).

(** [#rrggbb] *)
Definition hexOf (r g b : Z) : string := "#" ++ hex2 r ++ hex2 g ++ hex2 b.

(** A whole number: [Math.round(x) === x]. *)
Definition isWhole (x : float) : bool := PrimFloat.eqb (Math_round x) x.

Definition wholeHsl (c : HSL) : bool :=
  isWhole (hsl_h c) && isWhole (hsl_s c) && isWhole (hsl_l c).

(** *** Going through all colours

    The lightness and the saturation [rgbToHsl] computes depend on the
    largest and the smallest channel only. *)

Definition lightnessAt (max min : float) : float := ((max + min) / 2 * 100)%float.

Definition saturationAt (max min : float) : float :=
  ((if negb (max =? min) then
      if 0.5 <? (max + min) / 2 then (max - min) / (2 - max - min)
      else (max - min) / (max + min)
    else 0) * 100)%float.

Definition channelValues : list Z := map Z.of_nat (seq 0 256).

(** A channel value, the number [parseInt] reads from its two hex digits,
    and those digits. *)
Definition Entry : Type := Z * float * string.

Definition value (e : Entry) : Z := fst (fst e).
Definition number (e : Entry) : float := snd (fst e).
Definition digits (e : Entry) : string := snd e.

Definition entryOf (n : Z) : Entry := (n, parseInt16 (hex2 n), hex2 n).

Definition entries : list Entry := map entryOf channelValues.

(** The channel as [rgbToHsl] normalises it. *)
Definition norm (e : Entry) : float := (number e / 255)%float.

(** The numbers of the table are ordered as their values are, and none is
    [NaN], an infinity or a negative zero. *)
Definition plain (e : Entry) : bool :=
  negb (is_nan (norm e)) && negb (isNegativeZero (norm e))
  && (neg_infinity <? norm e)%float && (norm e <? infinity)%float.

Definition ordered (e1 e2 : Entry) : bool :=
  Bool.eqb (norm e1 <? norm e2)%float (value e1 <? value e2)%Z
  && Bool.eqb (norm e1 =? norm e2)%float (value e1 =? value e2)%Z.

Definition tableFacts (table : list Entry) : bool :=
  forallb (fun e1 => plain e1 && forallb (ordered e1) table) table.

(** For one colour: when its HSL components are whole numbers, the HSL text
    goes back to the same hex string. *)
Definition returnsSame (r g b : Entry) : bool :=
  let c := ThemedTagsPlugin.rgbToHsl (number r) (number g) (number b) in
  if wholeHsl c then
    String.eqb
      (ThemedTagsPluginSettingTab.hslToHex
         (ThemedTagsPlugin.hslText (hsl_h c) (hsl_s c) (hsl_l c)))
      ("#" ++ digits r ++ digits g ++ digits b)
  else true.

(** The colours whose channels are [hi], [mid] and [lo] in some order. *)
Definition arrangements (hi mid lo : Entry) : list (Entry * Entry * Entry) :=
  [ (hi, mid, lo); (hi, lo, mid); (mid, hi, lo);
    (lo, hi, mid); (mid, lo, hi); (lo, mid, hi) ].

Definition tripleReturnsSame (t : Entry * Entry * Entry) : bool :=
  returnsSame (fst (fst t)) (snd (fst t)) (snd t).

(** For a largest and a smallest channel that give a whole lightness and a
    whole saturation: every colour with these two returns the same. *)
Definition checkPair (table : list Entry) (hi lo : Entry) : bool :=
  if isWhole (lightnessAt (norm hi) (norm lo))
     && isWhole (saturationAt (norm hi) (norm lo))
  then
    forallb (fun mid =>
               if (value lo <=? value mid)%Z && (value mid <=? value hi)%Z
               then forallb tripleReturnsSame (arrangements hi mid lo)
               else true)
            table
  else true.

Definition checkAll (table : list Entry) : bool :=
  forallb (fun hi => forallb (checkPair table hi) table) table.

Definition max3 (i j k : Z) : Z := Z.max (Z.max i j) k.
Definition min3 (i j k : Z) : Z := Z.min (Z.min i j) k.

(** [hex2 n] is two digits that read back as [n]. *)
Definition readsBack (n : Z) : bool :=
  match hex2 n with
  | String _ (String _ EmptyString) =>
      match readDigits 16 (hex2 n) 0 0 with
      | (m, 2%nat) => (m =? n)%Z
      | _ => false
      end
  | _ => false
  end.

Definition hexDigits : list ascii := list_ascii_of_string "0123456789abcdefABCDEF".

(** ** Concrete documents used in the examples *)

Module Examples.

(** A document with no injected style and a silent console. *)
Definition emptyWorld : World := mkWorld [] [] [].

(** One style sheet that cannot be read, and one that declares
    [--accent-h] twice, [color], and the standard property [accent-color];
    at the root, [--accent-h] is [254] and [--accent-color] is an HSL
    colour. *)
Definition themeEnv : StyleEnv :=
  mkEnv
    [ Unreadable;
      Readable [ OtherRule;
                 CSSStyleRule ["--accent-h"; "color"; "accent-color"];
                 CSSStyleRule ["--accent-h"] ] ]
    (fun name =>
       if String.eqb name "--accent-h" then " 254"
       else if String.eqb name "--accent-color" then "hsl(254, 80%, 68%)"
       else "").

(** The same sheets; at the root, [--accent-color] refers to another
    variable. *)
Definition indirectEnv : StyleEnv :=
  mkEnv (styleSheets themeEnv)
        (fun name =>
           if String.eqb name "--accent-color" then "var(--interactive-accent)"
           else "").

Definition tagColors : JSObject := [("project", "#ff0000"); ("done", "#00ff00")].

(** One sheet that lists the name [accent-h]; at the root, [--accent-h]
    refers to another variable. *)
Definition hueEnv : StyleEnv :=
  mkEnv [ Readable [ CSSStyleRule ["accent-h"] ] ]
        (fun name => if String.eqb name "--accent-h" then "var(--hue)" else "").

End Examples.

(** ** The rest of the plugin: objects, events and the settings tab *)

(** [RgbForm s r g b]: [s] reads [rgb(r,] [g,] [b)] with digit runs [r],
    [g], [b] and optional white space after each comma. *)
Inductive RgbForm : string -> string -> string -> string -> Prop :=
| RgbForm_intro (d1 w1 d2 w2 d3 : string) :
    digitRun d1 -> spaceRun w1 -> digitRun d2 -> spaceRun w2 -> digitRun d3 ->
    RgbForm ("rgb(" ++ d1 ++ "," ++ w1 ++ d2 ++ "," ++ w2 ++ d3 ++ ")") d1 d2 d3.

(** *** Reading and writing a property of a plain object

    [obj[key]] finds an own property first and a member of
    [Object.prototype] otherwise; the plugin only tests the result for
    truthiness and passes it on as a colour. *)

Definition objectPrototypeNames : list string :=
  [ "constructor"; "__defineGetter__"; "__defineSetter__"; "hasOwnProperty";
    "__lookupGetter__"; "__lookupSetter__"; "isPrototypeOf";
    "propertyIsEnumerable"; "toString"; "valueOf"; "__proto__";
    "toLocaleString" ].

Inductive JSValue : Type :=
| StringValue (s : string)
| PrototypeMember
| UndefinedValue.

Fixpoint ownProperty (obj : JSObject) (key : string) : option string :=
  match obj with
  | [] => None
  | (k, v) :: obj' => if String.eqb k key then Some v else ownProperty obj' key
  end.

(** [obj[key]] *)
Definition getValue (obj : JSObject) (key : string) : JSValue :=
  match ownProperty obj key with
  | Some v => StringValue v
  | None =>
      if existsb (String.eqb key) objectPrototypeNames then PrototypeMember
      else UndefinedValue
  end.

Fixpoint replaceOwn (obj : JSObject) (key value : string) : JSObject :=
  match obj with
  | [] => []
  | (k, v) :: obj' =>
      if String.eqb k key then (k, value) :: obj' else (k, v) :: replaceOwn obj' key value
  end.

(** [obj[key] = value] for a string [value]: an own property is updated in
    place, a new one is created last; without an own [__proto__] the
    inherited setter is called, which ignores a string. *)
Definition assign (obj : JSObject) (key value : string) : JSObject :=
  match ownProperty obj key with
  | Some _ => replaceOwn obj key value
  | None => if String.eqb key "__proto__" then obj else (obj ++ [(key, value)])%list
  end.



(** *** What the plugin reads from the host application *)

(** The cache of a file: its [tags] when it has any, each as the text of
    [TagCache.tag]. *)
Record FileCache : Type := mkCache { tags : option (list string) }.

(** The view of the active leaf: a [MarkdownView] with its [file], or a
    view of another class. *)
Inductive View : Type :=
| MarkdownView (file : option string)
| OtherView.

(** [app.workspace.activeLeaf], [app.metadataCache.getFileCache] and
    [app.vault.getMarkdownFiles()]; a file is known by its path. *)
Record App : Type := mkApp {
  activeLeaf : option View;
  getFileCache : string -> option FileCache;
  getMarkdownFiles : list string
}.

(** How a call ends: normally or with a [TypeError]. *)
Inductive Completion : Type := Normal | Throws.

(** *** The event handlers of [class ThemedTagsPlugin] *)

Module PluginEvents.

(** [hexToHsl] calls [hex.replace]; a member of [Object.prototype] has no
    such method, so the call throws before anything is changed. *)
Definition applyFileThemeColor (app : App) (tagColors : JSObject) (env : StyleEnv)
    : M Completion :=
  match activeLeaf app with
  | Some (MarkdownView (Some file)) =>
      match getFileCache app file with
      | Some (mkCache (Some (first :: _))) =>
          let firstTag := stripHash first in
          match getValue tagColors firstTag with
          | StringValue color =>
              if negb (String.eqb color "") then
                ThemedTagsPlugin.setFileThemeColor env color ;;; ret Normal
              else ThemedTagsPlugin.removeFileThemeColor ;;; ret Normal
          | PrototypeMember => ret Throws
          | UndefinedValue => ThemedTagsPlugin.removeFileThemeColor ;;; ret Normal
          end
      | _ => ThemedTagsPlugin.removeFileThemeColor ;;; ret Normal
      end
  | _ => ret Normal
  end.

(** [onload], once the settings are loaded: the first [applyTagColors]. *)
Definition onload (tagColors : JSObject) : M unit :=
  ThemedTagsPlugin.applyTagColors tagColors.

Definition onunload : M unit :=
  ThemedTagsPlugin.removeTagColors ;;; ThemedTagsPlugin.removeFileThemeColor.

End PluginEvents.

(** *** [display] and [getAllTags] of the settings tab *)

Module SettingTabDisplay.

Definition addFileTags (app : App) (names : list string) (file : string) : list string :=
  match getFileCache app file with
  | Some (mkCache (Some fileTags)) =>
      fold_left (fun names tag => ThemedTagsPlugin.setAdd names (stripHash tag))
                fileTags names
  | _ => names
  end.

Definition getAllTags (app : App) : list string :=
  fold_left (addFileTags app) (getMarkdownFiles app) [].



End SettingTabDisplay.

(** *** A run of the plugin: [onload], then the events it subscribed to *)

Record Session : Type := mkSession { settings : JSObject; world : World }.

(** The metadata cache reports a change; the active leaf changes (with what
    the host and the browser show at that moment); a colour picker of the
    settings tab reports a new value for a tag. *)
Inductive Event : Type :=
| MetadataChanged
| ActiveLeafChange (app : App) (env : StyleEnv)
| ColorPicked (tag value : string).

Definition handle (s : Session) (ev : Event) : Session :=
  match ev with
  | MetadataChanged =>
      mkSession (settings s) (exec (ThemedTagsPlugin.applyTagColors (settings s)) (world s))
  | ActiveLeafChange app env =>
      mkSession (settings s)
                (exec (PluginEvents.applyFileThemeColor app (settings s) env) (world s))
  | ColorPicked tag value =>
      let tagColors := assign (settings s) tag value in
      mkSession tagColors (exec (ThemedTagsPlugin.applyTagColors tagColors) (world s))
  end.

Definition start (loaded : JSObject) (w : World) : Session :=
  mkSession loaded (exec (PluginEvents.onload loaded) w).

Definition run (events : list Event) (s : Session) : Session :=
  fold_left handle events s.


(** No injected theme block and no accent property on the body. *)
Definition themeFree (w : World) : Prop :=
  withId ThemedTagsPlugin.fileThemeId (head w) = [] /\
  ~ In "--accent-h" (map fst (bodyStyle w)) /\
  ~ In "--accent-s" (map fst (bodyStyle w)).

(** The lookup of a body property. *)
Fixpoint bodyProperty (name : string) (ps : list (string * (string * string)))
    : option (string * string) :=
  match ps with
  | [] => None
  | (n, v) :: ps' => if String.eqb n name then Some v else bodyProperty name ps'
  end.

(** [xs] with some elements left out, order kept. *)
Inductive Subsequence {A : Type} : list A -> list A -> Prop :=
| Subsequence_nil : Subsequence [] []
| Subsequence_skip (x : A) (xs ys : list A) : Subsequence xs ys -> Subsequence xs (x :: ys)
| Subsequence_keep (x : A) (xs ys : list A) : Subsequence xs ys -> Subsequence (x :: xs) (x :: ys).



(** A tag some markdown file of the vault carries, with one leading [#]
    taken off. *)
Definition taggedIn (app : App) (name : string) : Prop :=
  exists file fileTags tag,
    In file (getMarkdownFiles app) /\
    getFileCache app file = Some (mkCache (Some fileTags)) /\
    In tag fileTags /\
    stripHash tag = name.

(** For a largest and a smallest channel: lightness and saturation lie in
    0..100, and the saturation is zero exactly when the two are equal. *)
Definition boundsAt (hi lo : Entry) : bool :=
  if (value lo <=? value hi)%Z then
    (0 <=? lightnessAt (norm hi) (norm lo))%float
    && (lightnessAt (norm hi) (norm lo) <=? 100)%float
    && (0 <=? saturationAt (norm hi) (norm lo))%float
    && (saturationAt (norm hi) (norm lo) <=? 100)%float
    && Bool.eqb (saturationAt (norm hi) (norm lo) =? 0)%float (value hi =? value lo)%Z
  else true.

Definition boundsAll (table : list Entry) : bool :=
  forallb (fun hi => forallb (boundsAt hi) table) table.

(** The number of a channel value. *)
Definition channelNumber (n : Z) : float := ofInteger n.



(** The guard of [setFileThemeColor]: the value read for the variable at
    the root is empty or refers to another variable. *)
Definition guarded (env : StyleEnv) (variable : string) : Prop :=
  ThemedTagsPlugin.getCssVariableValue env variable = "" \/
  JS.includes (ThemedTagsPlugin.getCssVariableValue env variable) "var(" = true.

(** [setFileThemeColor env color] on [w] leaves [variable] alone under the
    custom property [property]: the injected block has no declaration for
    the variable, and the body's inline style gives the property what it
    gave before. *)
Definition leftAlone (env : StyleEnv) (color : string) (w : World)
    (variable property : string) : Prop :=
  ~ In variable
       (map fst (eval (overrides env (ThemedTagsPlugin.hexToHsl color)
                         (ThemedTagsPlugin.getAccentVariables env)) w)) /\
  bodyProperty property (bodyStyle (exec (ThemedTagsPlugin.setFileThemeColor env color) w))
  = bodyProperty property (bodyStyle w).

(** *** Host states used in the examples *)

Module Hosts.



End Hosts.

(** * Properties *)

Import ThemedTagsPlugin.

Section Conversions.

Local Open Scope float_scope.

(** C6: [hexToHsl] maps the three sRGB primaries to their exact HSL values:
    red to (0, 100, 50), green to (120, 100, 50), blue to (240, 100, 50). *)
Theorem hexToHsl_primaries :
  hexToHsl "#ff0000" = mkHSL 0 100 50 /\
  hexToHsl "#00ff00" = mkHSL 120 100 50 /\
  hexToHsl "#0000ff" = mkHSL 240 100 50.
Proof. repeat split; vm_compute; reflexivity. Qed.

End Conversions.

(** ** The patterns accept exactly the stated form *)

Section PatternFacts.

Import Pattern.

Lemma expect_app (lit s : string) : expect lit (lit ++ s) = Some s.
Proof.
  induction lit as [|a lit IH]; simpl; [reflexivity|].
  now rewrite Ascii.eqb_refl.
Qed.

Lemma expect_inv (lit s rest : string) :
  expect lit s = Some rest -> s = lit ++ rest.
Proof.
  revert s; induction lit as [|a lit IH]; intros s H; simpl in *.
  - now inversion H.
  - destruct s as [|c s]; [discriminate|].
    destruct (Ascii.eqb a c) eqn:E; [|discriminate].
    apply Ascii.eqb_eq in E; subst c.
    now rewrite (IH _ H).
Qed.

Lemma span_inv (p : ascii -> bool) (s run rest : string) :
  span p s = (run, rest) ->
  s = run ++ rest /\ allChars p run = true /\ stops p rest.
Proof.
  revert run rest; induction s as [|c s IH]; intros run rest H; simpl in H.
  - inversion H; subst; simpl; auto.
  - destruct (p c) eqn:Pc.
    + destruct (span p s) as [run' rest'] eqn:E.
      inversion H; subst; clear H.
      destruct (IH _ _ eq_refl) as (-> & Hall & Hstop).
      simpl; rewrite Pc, Hall; auto.
    + inversion H; subst; simpl; auto.
Qed.

Lemma span_app (p : ascii -> bool) (run rest : string) :
  allChars p run = true -> stops p rest -> span p (run ++ rest) = (run, rest).
Proof.
  intros Hall Hstop; induction run as [|c run IH]; simpl in *.
  - destruct rest as [|c rest]; simpl in *; [reflexivity|].
    now rewrite Hstop.
  - apply andb_true_iff in Hall as [Pc Hall].
    now rewrite Pc, (IH Hall).
Qed.

Lemma digits1_inv (s run rest : string) :
  digits1 s = Some (run, rest) ->
  s = run ++ rest /\ digitRun run /\ stops isDigit rest.
Proof.
  unfold digits1; intros H.
  destruct (span isDigit s) as [r0 rest0] eqn:E.
  destruct r0 as [|c r0]; [discriminate|].
  inversion H; subst; clear H.
  destruct (span_inv _ _ _ _ E) as (-> & Hall & Hstop).
  repeat split; auto; discriminate.
Qed.

Lemma digits1_app (run rest : string) :
  digitRun run -> stops isDigit rest -> digits1 (run ++ rest) = Some (run, rest).
Proof.
  intros [Hne Hall] Hstop; unfold digits1.
  rewrite (span_app _ _ _ Hall Hstop).
  destruct run; [contradiction|reflexivity].
Qed.

Lemma spaces_inv (s : string) :
  exists w, s = w ++ spaces s /\ spaceRun w /\ stops isWhiteSpace (spaces s).
Proof.
  unfold spaces; destruct (span isWhiteSpace s) as [w rest] eqn:E.
  destruct (span_inv _ _ _ _ E) as (-> & Hall & Hstop).
  now exists w.
Qed.

Lemma spaces_app (w rest : string) :
  spaceRun w -> stops isWhiteSpace rest -> spaces (w ++ rest) = rest.
Proof.
  intros Hall Hstop; unfold spaces; now rewrite (span_app _ _ _ Hall Hstop).
Qed.

Lemma digit_not_space (c : ascii) : isDigit c = true -> isWhiteSpace c = false.
Proof.
  destruct c as [[] [] [] [] [] [] [] []]; vm_compute; congruence.
Qed.

(** A digit run is never taken for white space. *)
Lemma digitRun_stops_spaces (d rest : string) :
  digitRun d -> stops isWhiteSpace (d ++ rest).
Proof.
  intros [Hne Hall]; destruct d as [|c d]; [contradiction|].
  simpl in *; apply andb_true_iff in Hall as [Hc _].
  now apply digit_not_space.
Qed.

Lemma atEnd_inv (s : string) : atEnd s = true -> s = EmptyString.
Proof. destruct s; [reflexivity|discriminate]. Qed.

Lemma matchHsl_sound (s d1 d2 d3 : string) :
  matchHsl s = Some (d1, d2, d3) -> HslForm s d1 d2 d3.
Proof.
  unfold matchHsl; intros H.
  destruct (expect "hsl(" s) as [s1|] eqn:E1; [|discriminate].
  destruct (digits1 s1) as [[c1 s2]|] eqn:E2; [|discriminate].
  destruct (expect "," s2) as [s3|] eqn:E3; [|discriminate].
  destruct (digits1 (spaces s3)) as [[c2 s4]|] eqn:E4; [|discriminate].
  destruct (expect "%," s4) as [s5|] eqn:E5; [|discriminate].
  destruct (digits1 (spaces s5)) as [[c3 s6]|] eqn:E6; [|discriminate].
  destruct (expect "%)" s6) as [s7|] eqn:E7; [|discriminate].
  destruct (atEnd s7) eqn:E8; [|discriminate].
  inversion H; subst c1 c2 c3; clear H.
  apply atEnd_inv in E8; subst s7.
  apply expect_inv in E1, E3, E5, E7.
  apply digits1_inv in E2 as (E2 & R1 & _).
  apply digits1_inv in E4 as (E4 & R2 & _).
  apply digits1_inv in E6 as (E6 & R3 & _).
  destruct (spaces_inv s3) as (w1 & W1 & S1 & _).
  destruct (spaces_inv s5) as (w2 & W2 & S2 & _).
  assert (s = "hsl(" ++ d1 ++ "," ++ w1 ++ d2 ++ "%," ++ w2 ++ d3 ++ "%)") as ->.
  { rewrite E1, E2, E3, W1, E4, E5, W2, E6, E7; reflexivity. }
  now constructor.
Qed.

Lemma matchHsl_complete (s d1 d2 d3 : string) :
  HslForm s d1 d2 d3 -> matchHsl s = Some (d1, d2, d3).
Proof.
  intros [e1 w1 e2 w2 e3 R1 S1 R2 S2 R3]; unfold matchHsl.
  rewrite expect_app.
  rewrite (digits1_app e1 _ R1) by reflexivity.
  rewrite (expect_app "," _).
  rewrite (spaces_app w1 _ S1) by now apply digitRun_stops_spaces.
  rewrite (digits1_app e2 _ R2) by reflexivity.
  rewrite (expect_app "%," _).
  rewrite (spaces_app w2 _ S2) by now apply digitRun_stops_spaces.
  rewrite (digits1_app e3 _ R3) by reflexivity.
  reflexivity.
Qed.

Lemma matchHsl_none (s : string) :
  (forall d1 d2 d3, ~ HslForm s d1 d2 d3) -> matchHsl s = None.
Proof.
  intros H; destruct (matchHsl s) as [[[d1 d2] d3]|] eqn:E; [|reflexivity].
  exfalso; exact (H _ _ _ (matchHsl_sound _ _ _ _ E)).
Qed.

End PatternFacts.

(** ** State passing and the children of [document.head] *)

Section HeadFacts.

Lemma append_assoc (a b c : string) : (a ++ b) ++ c = a ++ b ++ c.
Proof. induction a as [|x a IH]; simpl; [reflexivity|now rewrite IH]. Qed.

Lemma append_nil_r (a : string) : a ++ "" = a.
Proof. induction a as [|x a IH]; simpl; [reflexivity|now rewrite IH]. Qed.

Lemma exec_bind {A B : Type} (m : M A) (k : A -> M B) (w : World) :
  exec (bind m k) w = exec (k (eval m w)) (exec m w).
Proof. unfold exec, eval, bind; now destruct (m w). Qed.

Lemma setLast_app (css : string) (els : list StyleElement) (e : StyleElement) :
  setLast css (els ++ [e])%list = (els ++ [mkStyle (id e) css])%list.
Proof.
  induction els as [|x els IH]; [reflexivity|].
  change ((x :: els) ++ [e])%list with (x :: (els ++ [e]))%list.
  change (setLast css (x :: (els ++ [e]))%list)
    with (match (els ++ [e])%list with
          | [] => [mkStyle (id x) css]
          | _ :: _ => x :: setLast css (els ++ [e])%list
          end).
  rewrite IH; destruct els; reflexivity.
Qed.

Lemma withId_app (name : string) (xs ys : list StyleElement) :
  withId name (xs ++ ys)%list = (withId name xs ++ withId name ys)%list.
Proof. apply filter_app. Qed.

(** The parsers only write to the console. *)
Lemma parseHslValue_head (text : string) (w : World) :
  head (exec (parseHslValue text) w) = head w.
Proof. unfold parseHslValue; destruct (Pattern.matchHsl text) as [[[? ?] ?]|]; reflexivity. Qed.

Lemma parseRgbValue_head (text : string) (w : World) :
  head (exec (parseRgbValue text) w) = head w.
Proof. unfold parseRgbValue; destruct (Pattern.matchRgb text) as [[[? ?] ?]|]; reflexivity. Qed.

Lemma newValueFor_head (env : StyleEnv) (c : HSL) (variable : string) (w : World) :
  head (exec (newValueFor env c variable) w) = head w.
Proof.
  unfold newValueFor.
  destruct (negb _ && negb _); [|reflexivity].
  destruct (endsWith variable "-h" || endsWith variable "-s"); [reflexivity|].
  destruct (endsWith variable "-rgb").
  { rewrite exec_bind; apply parseRgbValue_head. }
  destruct (startsWith _ "hsl("); [|reflexivity].
  rewrite exec_bind; apply parseHslValue_head.
Qed.

(** The loop of [setFileThemeColor] writes the declarations of [overrides],
    in order, after what [css] already holds. *)
Lemma forEach_overrides (env : StyleEnv) (c : HSL) (variables : list string)
    (css : string) (w : World) :
  forEach variables (overrideStep env c) css w =
  (css ++ declarations (eval (overrides env c variables) w),
   exec (overrides env c variables) w).
Proof.
  revert css w; induction variables as [|v vs IH]; intros css w.
  - simpl; unfold ret, eval, exec; simpl; now rewrite append_nil_r.
  - simpl; unfold bind, overrideStep, eval, exec in *.
    unfold bind.
    destruct (newValueFor env c v w) as [[nv|] w1]; unfold ret; rewrite IH;
      destruct (overrides env c vs w1) as [more w2];
      unfold declarations; cbn [fold_right fst snd];
      now rewrite ?append_assoc.
Qed.

Lemma overrides_head (env : StyleEnv) (c : HSL) (variables : list string) (w : World) :
  head (exec (overrides env c variables) w) = head w.
Proof.
  revert w; induction variables as [|v vs IH]; intros w; [reflexivity|].
  simpl; rewrite exec_bind, exec_bind.
  unfold ret, exec at 1; simpl.
  now rewrite IH, newValueFor_head.
Qed.

(** [setFileThemeColor] appends one element and touches nothing else in
    [document.head]. *)
Lemma setFileThemeColor_head (env : StyleEnv) (color : string) (w : World) :
  head (exec (setFileThemeColor env color) w) =
  (head w ++ [mkStyle fileThemeId (themeCss env color w)])%list.
Proof.
  unfold setFileThemeColor, themeCss, exec, bind.
  rewrite forEach_overrides.
  simpl. fold (exec (overrides env (hexToHsl color) (getAccentVariables env)) w).
  rewrite overrides_head.
  reflexivity.
Qed.

Lemma fold_rules (tagColors : JSObject) (keys : list string) (css : string) :
  fold_left (fun css tag => css ++ tagRule tag (getProperty tagColors tag)) keys css =
  css ++ fold_right (fun tag text => tagRule tag (getProperty tagColors tag) ++ text)
                    "" keys.
Proof.
  revert css; induction keys as [|k keys IH]; intros css; simpl.
  - now rewrite append_nil_r.
  - now rewrite IH, append_assoc.
Qed.

(** [applyTagColors] appends one element, whose text is [rulesText]. *)
Lemma applyTagColors_head (tagColors : JSObject) (w : World) :
  head (exec (applyTagColors tagColors) w) =
  (head w ++ [mkStyle tagStyleId (rulesText tagColors)])%list.
Proof.
  unfold applyTagColors, exec, bind, appendChild, setTextContent; simpl.
  now rewrite setLast_app, fold_rules.
Qed.

End HeadFacts.

(** ** Injected style blocks *)

Section StyleBlocks.

Import Examples.

(** C1: after [setFileThemeColor(c1)] and then [setFileThemeColor(c2)] the
    document holds both blocks, each with the id
    [themed-tags-file-theme-color]: the second call appends its block after
    the first one, in either variant of the plugin, and a following
    [removeFileThemeColor] takes out the older block only. *)
Theorem setFileThemeColor_twice_two_blocks :
  (forall (env1 env2 : StyleEnv) (c1 c2 : string) (w : World),
      let w1 := exec (setFileThemeColor env1 c1) w in
      let w2 := exec (setFileThemeColor env2 c2) w1 in
      head w2 = (head w ++ [mkStyle fileThemeId (themeCss env1 c1 w);
                            mkStyle fileThemeId (themeCss env2 c2 w1)])%list /\
      List.length (withId fileThemeId (head w2)) =
      (2 + List.length (withId fileThemeId (head w)))%nat) /\
  (forall (c1 c2 : string) (w : World),
      exists b1 b2,
        head (exec (SimpleVariant.setFileThemeColor c1 ;;;
                    SimpleVariant.setFileThemeColor c2) w)
        = (head w ++ [b1; b2])%list /\
        id b1 = fileThemeId /\ id b2 = fileThemeId) /\
  (let w2 := exec (setFileThemeColor themeEnv "#ff0000" ;;;
                   setFileThemeColor themeEnv "#00ff00") emptyWorld in
   head w2 =
     [mkStyle fileThemeId ":root {--accent-color: hsl(0, 100%, 68%) !important; }";
      mkStyle fileThemeId ":root {--accent-color: hsl(120, 100%, 68%) !important; }"] /\
   head (exec removeFileThemeColor w2) =
     [mkStyle fileThemeId ":root {--accent-color: hsl(120, 100%, 68%) !important; }"]).
Proof.
  split; [|split].
  - intros env1 env2 c1 c2 w w1 w2; subst w1 w2.
    rewrite !setFileThemeColor_head.
    split.
    + now rewrite <- app_assoc.
    + rewrite !withId_app; cbn [withId filter id].
      rewrite String.eqb_refl; cbn [List.app].
      rewrite !length_app; cbn [List.length]; lia.
  - intros c1 c2 w; eexists; eexists.
    split;
      [ unfold exec, bind, SimpleVariant.setFileThemeColor, appendChild; simpl;
        rewrite <- app_assoc; reflexivity
      | split; reflexivity ].
  - vm_compute; split; reflexivity.
Qed.

(** C2: a second [applyTagColors] appends a second block with the id
    [themed-tags-plugin-style] after the first; with an empty map the new
    block is empty, and the block with the rules of the first call is still
    there, and is the one [getElementById] finds. *)
Theorem applyTagColors_twice_appends :
  (forall (m1 m2 : JSObject) (w : World),
      head (exec (applyTagColors m1 ;;; applyTagColors m2) w) =
      (head w ++ [mkStyle tagStyleId (rulesText m1);
                  mkStyle tagStyleId (rulesText m2)])%list) /\
  (let w2 := exec (applyTagColors tagColors ;;; applyTagColors []) emptyWorld in
   head w2 =
     [mkStyle tagStyleId (tagRule "project" "#ff0000" ++ tagRule "done" "#00ff00");
      mkStyle tagStyleId ""] /\
   getElementById tagStyleId w2 =
     Some (mkStyle tagStyleId (tagRule "project" "#ff0000" ++ tagRule "done" "#00ff00"))).
Proof.
  split.
  - intros m1 m2 w.
    rewrite exec_bind, !applyTagColors_head.
    now rewrite <- app_assoc.
  - vm_compute; split; reflexivity.
Qed.

End StyleBlocks.

(** ** The tag rules *)

Section TagRules.

Import Examples.

Lemma insertIndex_perm (n : Z) (key : string) (sorted : list (Z * string)) :
  Permutation (map snd (insertIndex n key sorted)) (key :: map snd sorted).
Proof.
  induction sorted as [|[n' key'] rest IH]; simpl; [reflexivity|].
  destruct (n <? n')%Z; simpl; [reflexivity|].
  rewrite IH; apply perm_swap.
Qed.

Lemma indices_perm (obj : JSObject) (acc : list (Z * string)) :
  Permutation
    (map snd
       (fold_left (fun acc kv => match arrayIndex (fst kv) with
                                 | Some n => insertIndex n (fst kv) acc
                                 | None => acc
                                 end) obj acc))
    (filter (fun key => match arrayIndex key with Some _ => true | None => false end)
            (map fst obj) ++ map snd acc).
Proof.
  revert acc; induction obj as [|[k v] obj IH]; intros acc; simpl; [reflexivity|].
  rewrite IH; simpl.
  destruct (arrayIndex k) as [n|]; [|reflexivity].
  rewrite insertIndex_perm; simpl.
  now rewrite Permutation_middle.
Qed.

Lemma partition_perm {A : Type} (p : A -> bool) (xs : list A) :
  Permutation (filter p xs ++ filter (fun x => negb (p x)) xs) xs.
Proof.
  induction xs as [|x xs IH]; simpl; [reflexivity|].
  destruct (p x); simpl.
  - now rewrite IH.
  - now rewrite <- Permutation_middle, IH.
Qed.

(** [for ... in] visits every key of the object once. *)
Lemma forInKeys_perm (obj : JSObject) : Permutation (forInKeys obj) (map fst obj).
Proof.
  unfold forInKeys.
  rewrite indices_perm; simpl; rewrite app_nil_r.
  rewrite <- (partition_perm
                (fun key => match arrayIndex key with Some _ => true | None => false end)
                (map fst obj)) at 3.
  apply Permutation_app_head.
  erewrite filter_ext; [reflexivity|].
  intros key; cbv beta; destruct (arrayIndex key); reflexivity.
Qed.

(** C10: the text [applyTagColors] generates is one rule
    [.tag[href="#<tag>"] { color: <color> !important; }] per entry of the
    map, each key visited once, with the tag and the colour copied in as
    they are; it is a function of the map alone.  Nothing is escaped: a tag
    holding a double quote and a bracket closes the attribute selector
    early, and one entry with such a tag yields the very text of two plain
    entries. *)
Theorem applyTagColors_text_is_verbatim :
  (forall (m : JSObject) (w : World),
      head (exec (applyTagColors m) w) =
      (head w ++ [mkStyle tagStyleId (rulesText m)])%list) /\
  (forall m : JSObject,
      rulesText m =
      fold_right (fun tag text => tagRule tag (getProperty m tag) ++ text)
                 "" (forInKeys m) /\
      Permutation (forInKeys m) (map fst m)) /\
  (forall tag color : string,
      tagRule tag color =
      ".tag[href=" ++ quote ++ "#" ++ tag ++ quote ++ "] { color: " ++ color
      ++ " !important; }") /\
  rulesText [("a" ++ quote ++ "]", "red")] =
    ".tag[href=" ++ quote ++ "#a" ++ quote ++ "]" ++ quote
    ++ "] { color: red !important; }" /\
  rulesText [("a" ++ quote ++ "] { color: red !important; }.tag[href=" ++ quote ++ "#b",
              "blue")] =
    rulesText [("a", "red"); ("b", "blue")].
Proof.
  split; [exact applyTagColors_head|].
  split; [intros m; split; [reflexivity|apply forInKeys_perm]|].
  split; [intros tag color; unfold tagRule, quote; simpl; reflexivity|].
  split; vm_compute; reflexivity.
Qed.

End TagRules.

(** ** Accent variables *)

Section AccentVariables.

Import Examples.

Lemma fold_left_In {A : Type} (f : list string -> A -> list string)
    (Q : A -> string -> Prop) :
  (forall acc a x, In x (f acc a) <-> In x acc \/ Q a x) ->
  forall xs acc x,
    In x (fold_left f xs acc) <-> In x acc \/ exists a, In a xs /\ Q a x.
Proof.
  intros Hf xs; induction xs as [|a xs IH]; intros acc x; simpl.
  - split; [auto|]. intros [H|(a & Ha & _)]; [exact H|destruct Ha].
  - rewrite IH, Hf; split.
    + intros [[H|H]|(a' & Ha & H)]; eauto.
    + intros [H|(a' & [<-|Ha] & H)]; eauto.
Qed.

Lemma fold_left_NoDup {A : Type} (f : list string -> A -> list string) :
  (forall acc a, NoDup acc -> NoDup (f acc a)) ->
  forall xs acc, NoDup acc -> NoDup (fold_left f xs acc).
Proof.
  intros Hf xs; induction xs as [|a xs IH]; intros acc H; simpl; auto.
Qed.

Lemma existsb_eqb_In (name : string) (names : list string) :
  existsb (String.eqb name) names = true <-> In name names.
Proof.
  rewrite existsb_exists; split.
  - intros (x & Hx & E); apply String.eqb_eq in E; now subst.
  - intros H; exists name; split; [exact H|apply String.eqb_refl].
Qed.

Lemma setAdd_In (names : list string) (name x : string) :
  In x (setAdd names name) <-> In x names \/ x = name.
Proof.
  unfold setAdd; destruct (existsb (String.eqb name) names) eqn:E.
  - apply existsb_eqb_In in E; split; [auto|]. intros [H| ->]; assumption.
  - rewrite in_app_iff; simpl; split; intros [H|H]; auto.
    + destruct H as [<-|[]]; auto.
Qed.

Lemma setAdd_NoDup (names : list string) (name : string) :
  NoDup names -> NoDup (setAdd names name).
Proof.
  intros H; unfold setAdd; destruct (existsb (String.eqb name) names) eqn:E; [exact H|].
  apply NoDup_app; [exact H|repeat constructor; intros []|].
  intros x Hx [<-|[]].
  apply existsb_eqb_In in Hx; congruence.
Qed.

Lemma scanRule_In (names : list string) (rule : CSSRule) (x : string) :
  In x (scanRule names rule) <->
  In x names \/
  exists style, rule = CSSStyleRule style /\ In x style /\ includes x "accent" = true.
Proof.
  destruct rule as [style|]; simpl.
  - rewrite (fold_left_In _ (fun name x => x = name /\ includes x "accent" = true)).
    + split; intros [H|H]; auto.
      * destruct H as (name & Hin & -> & Hacc); right; exists style; auto.
      * destruct H as (style' & E & Hin & Hacc); inversion E; subst style'.
        right; exists x; auto.
    + intros acc name y; destruct (includes name "accent") eqn:E.
      * rewrite setAdd_In; split; intros [H|H]; auto.
        -- subst y; auto.
        -- destruct H as [-> _]; auto.
      * split; [auto|]. intros [H| [-> H]]; [exact H|congruence].
  - split; [auto|]. intros [H|(style & E & _)]; [exact H|discriminate].
Qed.

Lemma scanRule_NoDup (names : list string) (rule : CSSRule) :
  NoDup names -> NoDup (scanRule names rule).
Proof.
  destruct rule as [style|]; simpl; [|auto].
  apply fold_left_NoDup; intros acc name H.
  destruct (includes name "accent"); [now apply setAdd_NoDup|exact H].
Qed.

Lemma scanSheet_In (names : list string) (sheet : StyleSheet) (x : string) :
  In x (scanSheet names sheet) <->
  In x names \/
  exists rules style,
    sheet = Readable rules /\ In (CSSStyleRule style) rules /\
    In x style /\ includes x "accent" = true.
Proof.
  destruct sheet as [rules|]; simpl.
  - rewrite (fold_left_In _ (fun rule x =>
               exists style, rule = CSSStyleRule style /\ In x style /\
                             includes x "accent" = true)).
    + split; intros [H|H]; auto.
      * destruct H as (rule & Hin & style & -> & H); right; exists rules, style; auto.
      * destruct H as (rules' & style & E & Hin & H); inversion E; subst rules'.
        right; exists (CSSStyleRule style); split; [exact Hin|]; exists style; auto.
    + intros acc rule y; apply scanRule_In.
  - split; [auto|]. intros [H|(rules & style & E & _)]; [exact H|discriminate].
Qed.

(** What discovery returns, in general: each declared accent name once. *)
Lemma getAccentVariables_spec (env : StyleEnv) :
  NoDup (getAccentVariables env) /\
  forall name, In name (getAccentVariables env) <-> declaredAccent env name.
Proof.
  unfold getAccentVariables; split.
  - apply fold_left_NoDup; [|constructor].
    intros acc [rules|] H; simpl; [|exact H].
    apply fold_left_NoDup; [|exact H].
    intros acc' rule; apply scanRule_NoDup.
  - intros name.
    rewrite (fold_left_In _ (fun sheet x =>
               exists rules style,
                 sheet = Readable rules /\ In (CSSStyleRule style) rules /\
                 In x style /\ includes x "accent" = true)).
    + unfold declaredAccent; split.
      * intros [[]|(sheet & Hin & rules & style & -> & H)]; exists rules, style; auto.
      * intros (rules & style & Hin & H); right; exists (Readable rules); split;
          [exact Hin|]; exists rules, style; auto.
    + intros acc sheet x; apply scanSheet_In.
Qed.

(** C7: the names [getAccentVariables] returns are the property names as the
    style sheets declare them, each once, the leading [--] still in place
    and a standard property such as [accent-color] included; a sheet that
    cannot be read is passed over.  [getCssVariableValue] then puts a second
    [--] in front, so the value of [--accent-h] at the root is never the one
    looked up. *)
Theorem getAccentVariables_keeps_prefix :
  (forall env : StyleEnv,
      NoDup (getAccentVariables env) /\
      forall name, In name (getAccentVariables env) <-> declaredAccent env name) /\
  getAccentVariables themeEnv = ["--accent-h"; "accent-color"] /\
  getPropertyValue themeEnv "--accent-h" = " 254" /\
  getCssVariableValue themeEnv "--accent-h" = "" /\
  getCssVariableValue themeEnv "accent-color" = "hsl(254, 80%, 68%)".
Proof.
  split; [exact getAccentVariables_spec|].
  vm_compute; repeat split; reflexivity.
Qed.

Lemma guard_skips (env : StyleEnv) (c : HSL) (variable : string) (w : World) :
  getCssVariableValue env variable = "" \/
  includes (getCssVariableValue env variable) "var(" = true ->
  newValueFor env c variable w = (None, w).
Proof.
  intros H; unfold newValueFor.
  destruct H as [-> | ->]; [|reflexivity].
  now rewrite andb_false_r.
Qed.

Lemma overrides_In (env : StyleEnv) (c : HSL) (variables : list string) (w : World)
    (variable : string) :
  In variable (map fst (eval (overrides env c variables) w)) ->
  exists w', eval (newValueFor env c variable) w' <> None.
Proof.
  revert w; induction variables as [|v vs IH]; intros w; [intros []|].
  unfold eval; simpl; unfold bind.
  destruct (newValueFor env c v w) as [nv w1] eqn:E1.
  destruct (overrides env c vs w1) as [more w2] eqn:E2.
  unfold ret; simpl.
  assert (Hmore : In variable (map fst more) ->
                  exists w', eval (newValueFor env c variable) w' <> None).
  { intros H; apply (IH w1); unfold eval; now rewrite E2. }
  destruct nv as [x|]; simpl; [|exact Hmore].
  intros [<- | H]; [|now apply Hmore].
  exists w; unfold eval; rewrite E1; discriminate.
Qed.

End AccentVariables.

(** ** Parsing and converting colours *)

Section Parsing.

Import Examples.
Local Open Scope float_scope.

(** C9: [parseHslValue] accepts exactly the strings of the form
    [hsl(H, S%, L%)] with digit runs [H], [S], [L] and returns their values,
    leaving the console alone; for any other string it returns the fallback
    (0, 0, 50) and writes one line to the console.  It is a total function:
    there is no input on which it fails to return. *)
Theorem parseHslValue_matches_or_falls_back :
  (forall w : World,
      parseHslValue "hsl(200, 50%, 40%)" w = (mkHSL 200 50 40, w)) /\
  (forall (text d1 d2 d3 : string) (w : World),
      HslForm text d1 d2 d3 ->
      parseHslValue text w =
      (mkHSL (Number_ofDigits d1) (Number_ofDigits d2) (Number_ofDigits d3), w)) /\
  (forall (text : string) (w : World),
      (forall d1 d2 d3, ~ HslForm text d1 d2 d3) ->
      parseHslValue text w =
      (mkHSL 0 0 50,
       mkWorld (head w) (bodyStyle w)
               (console w ++ [("Failed to parse HSL value: " ++ text)%string])%list)).
Proof.
  split; [|split].
  - intros w; vm_compute; reflexivity.
  - intros text d1 d2 d3 w H; unfold parseHslValue.
    now rewrite (matchHsl_complete _ _ _ _ H).
  - intros text w H; unfold parseHslValue.
    now rewrite (matchHsl_none _ H).
Qed.

Lemma parseHslValue_matches_or_falls_back_witness :
  HslForm "hsl(7,8%,  9%)" "7" "8" "9" /\
  (forall d1 d2 d3, ~ HslForm "garbage" d1 d2 d3) /\
  parseHslValue "hsl(7,8%,  9%)" emptyWorld = (mkHSL 7 8 9, emptyWorld) /\
  parseHslValue "garbage" emptyWorld =
    (mkHSL 0 0 50, mkWorld [] [] ["Failed to parse HSL value: garbage"]).
Proof.
  assert (H1 : HslForm "hsl(7,8%,  9%)" "7" "8" "9").
  { apply (HslForm_intro "7" "" "8" "  " "9");
      try (split; [discriminate|reflexivity]); reflexivity. }
  assert (H2 : forall d1 d2 d3, ~ HslForm "garbage" d1 d2 d3).
  { intros d1 d2 d3 H; apply matchHsl_complete in H; discriminate H. }
  split; [exact H1|]. split; [exact H2|].
  destruct parseHslValue_matches_or_falls_back as (_ & Hform & Hnone).
  split.
  - rewrite (Hform _ _ _ _ emptyWorld H1); vm_compute; reflexivity.
  - rewrite (Hnone _ emptyWorld H2); reflexivity.
Defined.

(** C3: [hexToHsl] does not check its input.  Six characters that are not
    hexadecimal digits, or a three-digit colour, give an HSL value whose
    saturation and lightness are [NaN], which [setFileThemeColor] then writes
    into the style sheet; eight digits are read as their first six, with
    nothing signalled. *)
Theorem hexToHsl_malformed_input :
  hexToHsl "zzzzzz" = mkHSL 0 nan nan /\
  hexToHsl "#fff" = mkHSL 0 nan nan /\
  hexToHsl "#ff0000ff" = mkHSL 0 100 50 /\
  exec (setFileThemeColor themeEnv "zzzzzz") emptyWorld =
    mkWorld
      [mkStyle fileThemeId ":root {--accent-color: hsl(0, NaN%, 68%) !important; }"]
      [("--accent-h", ("0", "important")); ("--accent-s", ("NaN%", "important"))]
      [].
Proof. repeat split; vm_compute; reflexivity. Qed.

(** C5: [hslToRgb] followed by [rgbToHsl] does not give (h, s, l) back.
    For (200, 50, 40) the green channel comes out as 51 where [hslToHex]
    computes 119 (hex 77), and the hue read back is 240; for pure red
    (0, 100, 50) the red channel is 510, outside 0..255, and the saturation
    read back is infinite. *)
Theorem hslToRgb_round_trip_fails :
  hslToRgb 200 50 40 = mkRGB 51 51 153 /\
  hsl_h (rgbToHsl 51 51 153) = 240 /\
  ThemedTagsPluginSettingTab.hslToHex "hsl(200, 50%, 40%)" = "#337799" /\
  hslToRgb 0 100 50 = mkRGB 510 0 0 /\
  rgbToHsl 510 0 0 = mkHSL 0 infinity 100.
Proof. repeat split; vm_compute; reflexivity. Qed.

End Parsing.

(** ** Hex to HSL and back *)

Section RoundTrip.

Local Open Scope float_scope.

(** C4, as stated, fails: the saturation and lightness of [#123456] are
    not whole numbers, the text printed for them is not matched by
    [hslToHex], and the result is the fallback [#000000]. *)
Lemma roundTrip_counterexample :
  validHex "#123456" /\
  roundTrip "#123456" = "#000000" /\
  ~ withinOne "#123456" (roundTrip "#123456").
Proof.
  assert (E : roundTrip "#123456" = "#000000") by (vm_compute; reflexivity).
  split; [vm_compute; discriminate|]. split; [exact E|].
  rewrite E; unfold withinOne.
  replace (hexChannels "#123456") with (Some (18, 52, 86)%Z) by (vm_compute; reflexivity).
  replace (hexChannels "#000000") with (Some (0, 0, 0)%Z) by (vm_compute; reflexivity).
  intros [H _]; revert H; vm_compute; intros H; apply H; reflexivity.
Qed.

Lemma channelValues_In (n : Z) : (0 <= n < 256)%Z -> In n channelValues.
Proof.
  intros H; unfold channelValues; apply in_map_iff.
  exists (Z.to_nat n); split; [lia|].
  apply in_seq; lia.
Qed.

Lemma readsBack_all : forallb readsBack channelValues = true.
Proof. vm_compute; reflexivity. Qed.

Lemma hex2_shape (n : Z) :
  (0 <= n < 256)%Z ->
  exists c1 c2, hex2 n = String c1 (String c2 EmptyString) /\
                readDigits 16 (hex2 n) 0 0 = (n, 2%nat).
Proof.
  intros H; apply channelValues_In in H.
  pose proof (proj1 (forallb_forall _ _) readsBack_all n H) as R.
  unfold readsBack in R.
  destruct (hex2 n) as [|c1 [|c2 [|c3 rest]]]; try discriminate.
  exists c1, c2; split; [reflexivity|].
  destruct (readDigits 16 _ 0 0) as [m [|[|[|k]]]]; try discriminate.
  apply Z.eqb_eq in R; now subst.
Qed.

Lemma hexDigit_In (c : ascii) (d : Z) :
  digitValue c = Some d -> (d <? 16)%Z = true -> In c hexDigits.
Proof.
  destruct c as [[] [] [] [] [] [] [] []]; vm_compute;
    intros H; try discriminate H; intros _; tauto.
Qed.

(** Two hex digits in either case read as the same number as the canonical
    two digits of their value. *)
Lemma parseInt16_pair (c1 c2 : ascii) (n : Z) :
  readDigits 16 (String c1 (String c2 EmptyString)) 0 0 = (n, 2%nat) ->
  (0 <= n < 256)%Z /\
  parseInt16 (String c1 (String c2 EmptyString)) = parseInt16 (hex2 n).
Proof.
  intros H.
  assert (H1 : In c1 hexDigits /\ In c2 hexDigits).
  { cbn [readDigits] in H.
    destruct (digitValue c1) as [d1|] eqn:D1; [|discriminate].
    destruct (d1 <? 16)%Z eqn:L1; [|discriminate].
    destruct (digitValue c2) as [d2|] eqn:D2; [|discriminate].
    destruct (d2 <? 16)%Z eqn:L2; [|discriminate].
    split; eapply hexDigit_In; eassumption. }
  destruct H1 as [I1 I2].
  unfold hexDigits in I1, I2; cbn [list_ascii_of_string In] in I1, I2.
  repeat (destruct I1 as [<-|I1]); try contradiction;
    repeat (destruct I2 as [<-|I2]); try contradiction;
    vm_compute in H; inversion H; subst n;
    (split; [lia | vm_compute; reflexivity]).
Qed.

Lemma hexChannels_shape (hex : string) (r g b : Z) :
  hexChannels hex = Some (r, g, b) ->
  exists c1 c2 c3 c4 c5 c6,
    stripHash hex =
      String c1 (String c2 (String c3 (String c4 (String c5 (String c6 EmptyString)))))
    /\ readDigits 16 (String c1 (String c2 EmptyString)) 0 0 = (r, 2%nat)
    /\ readDigits 16 (String c3 (String c4 EmptyString)) 0 0 = (g, 2%nat)
    /\ readDigits 16 (String c5 (String c6 EmptyString)) 0 0 = (b, 2%nat).
Proof.
  unfold hexChannels.
  destruct (stripHash hex) as [|c1 [|c2 [|c3 [|c4 [|c5 [|c6 [|c7 rest]]]]]]];
    try discriminate.
  cbn [String.length Nat.eqb JS.substring String.substring Nat.add Nat.sub].
  intros H; exists c1, c2, c3, c4, c5, c6; split; [reflexivity|].
  destruct (readDigits 16 (String c1 (String c2 EmptyString)) 0 0)
    as [r' [|[|[|k1]]]]; try discriminate.
  destruct (readDigits 16 (String c3 (String c4 EmptyString)) 0 0)
    as [g' [|[|[|k2]]]]; try discriminate.
  destruct (readDigits 16 (String c5 (String c6 EmptyString)) 0 0)
    as [b' [|[|[|k3]]]]; try discriminate.
  inversion H; subst; auto.
Qed.

Lemma hexToHsl_channels (hex : string) (c1 c2 c3 c4 c5 c6 : ascii) :
  stripHash hex =
    String c1 (String c2 (String c3 (String c4 (String c5 (String c6 EmptyString))))) ->
  hexToHsl hex =
  rgbToHsl (parseInt16 (String c1 (String c2 EmptyString)))
           (parseInt16 (String c3 (String c4 EmptyString)))
           (parseInt16 (String c5 (String c6 EmptyString))).
Proof. intros H; unfold hexToHsl; rewrite H; reflexivity. Qed.

(** *** The numbers of the table *)

Lemma tableFacts_all : tableFacts entries = true.
Proof. vm_cast_no_check (@eq_refl bool true). Qed.

Lemma entries_In (n : Z) : (0 <= n < 256)%Z -> In (entryOf n) entries.
Proof. intros H; unfold entries; apply in_map; now apply channelValues_In. Qed.

Lemma tableFacts_spec (table : list Entry) :
  tableFacts table = true ->
  forall e1, In e1 table ->
    plain e1 = true /\ forall e2, In e2 table -> ordered e1 e2 = true.
Proof.
  unfold tableFacts; intros T e1 H1.
  rewrite forallb_forall in T; specialize (T e1 H1); cbv beta in T.
  apply andb_true_iff in T as [P O]; split; [exact P|].
  intros e2 H2; rewrite forallb_forall in O; exact (O e2 H2).
Qed.

Lemma entry_plain (n : Z) :
  (0 <= n < 256)%Z ->
  is_nan (norm (entryOf n)) = false /\
  isNegativeZero (norm (entryOf n)) = false /\
  (neg_infinity <? norm (entryOf n)) = true /\
  (norm (entryOf n) <? infinity) = true.
Proof.
  intros H.
  destruct (tableFacts_spec entries tableFacts_all _ (entries_In n H)) as [P _].
  unfold plain in P.
  repeat (apply andb_true_iff in P as [P ?]).
  repeat split; try assumption; now apply negb_true_iff.
Qed.

Lemma entry_ordered (n m : Z) :
  (0 <= n < 256)%Z -> (0 <= m < 256)%Z ->
  (norm (entryOf n) <? norm (entryOf m)) = (n <? m)%Z /\
  (norm (entryOf n) =? norm (entryOf m)) = (n =? m)%Z.
Proof.
  intros Hn Hm.
  destruct (tableFacts_spec entries tableFacts_all _ (entries_In n Hn)) as [_ O].
  specialize (O _ (entries_In m Hm)); unfold ordered in O.
  apply andb_true_iff in O as [O1 O2].
  apply Bool.eqb_prop in O1, O2; split; assumption.
Qed.

(** *** The largest and the smallest of three channels *)

Lemma Math_max3 (x y z : float) :
  is_nan x = false -> is_nan y = false -> is_nan z = false ->
  isNegativeZero x = false -> isNegativeZero y = false ->
  (neg_infinity <? x) = true ->
  Math_max [x; y; z] =
  (if (if x <? y then y else x) <? z then z else if x <? y then y else x).
Proof.
  intros Nx Ny Nz Zx Zy Ix; unfold Math_max.
  cbn [existsb fold_left]; rewrite Nx, Ny, Nz; cbn [orb].
  change (isNegativeZero neg_infinity) with false.
  rewrite andb_false_r, Ix; cbn [orb].
  rewrite Zx, andb_false_r; cbn [orb].
  destruct (x <? y); [rewrite Zy|rewrite Zx]; now rewrite andb_false_r.
Qed.

Lemma Math_min3 (x y z : float) :
  is_nan x = false -> is_nan y = false -> is_nan z = false ->
  isNegativeZero x = false -> isNegativeZero y = false -> isNegativeZero z = false ->
  (x <? infinity) = true ->
  Math_min [x; y; z] =
  (if z <? (if y <? x then y else x) then z else if y <? x then y else x).
Proof.
  intros Nx Ny Nz Zx Zy Zz Ix; unfold Math_min.
  cbn [existsb fold_left]; rewrite Nx, Ny, Nz; cbn [orb].
  rewrite Zx, Zy, Zz, Ix; cbn [andb orb].
  reflexivity.
Qed.

Lemma entries_max (i j k : Z) :
  (0 <= i < 256)%Z -> (0 <= j < 256)%Z -> (0 <= k < 256)%Z ->
  Math_max [norm (entryOf i); norm (entryOf j); norm (entryOf k)] =
  norm (entryOf (max3 i j k)).
Proof.
  intros Hi Hj Hk.
  destruct (entry_plain i Hi) as (Ni & Zi & Ii & _).
  destruct (entry_plain j Hj) as (Nj & Zj & _ & _).
  destruct (entry_plain k Hk) as (Nk & _ & _ & _).
  rewrite (Math_max3 _ _ _ Ni Nj Nk Zi Zj Ii).
  rewrite (proj1 (entry_ordered i j Hi Hj)).
  unfold max3.
  destruct (Z.ltb_spec i j).
  - rewrite (proj1 (entry_ordered j k Hj Hk)).
    destruct (Z.ltb_spec j k); do 2 f_equal; lia.
  - rewrite (proj1 (entry_ordered i k Hi Hk)).
    destruct (Z.ltb_spec i k); do 2 f_equal; lia.
Qed.

Lemma entries_min (i j k : Z) :
  (0 <= i < 256)%Z -> (0 <= j < 256)%Z -> (0 <= k < 256)%Z ->
  Math_min [norm (entryOf i); norm (entryOf j); norm (entryOf k)] =
  norm (entryOf (min3 i j k)).
Proof.
  intros Hi Hj Hk.
  destruct (entry_plain i Hi) as (Ni & Zi & _ & Ii).
  destruct (entry_plain j Hj) as (Nj & Zj & _ & _).
  destruct (entry_plain k Hk) as (Nk & Zk & _ & _).
  rewrite (Math_min3 _ _ _ Ni Nj Nk Zi Zj Zk Ii).
  rewrite (proj1 (entry_ordered j i Hj Hi)).
  unfold min3.
  destruct (Z.ltb_spec j i).
  - rewrite (proj1 (entry_ordered k j Hk Hj)).
    destruct (Z.ltb_spec k j); do 2 f_equal; lia.
  - rewrite (proj1 (entry_ordered k i Hk Hi)).
    destruct (Z.ltb_spec k i); do 2 f_equal; lia.
Qed.

(** *** Lightness and saturation from the extremes *)

Lemma rgbToHsl_lightness (r g b : float) :
  hsl_l (rgbToHsl r g b) =
  lightnessAt (Math_max [r / 255; g / 255; b / 255])
              (Math_min [r / 255; g / 255; b / 255]).
Proof.
  unfold rgbToHsl, lightnessAt; cbv zeta.
  match goal with |- context [if ?c then _ else _] => destruct c end; reflexivity.
Qed.

Lemma rgbToHsl_saturation (r g b : float) :
  hsl_s (rgbToHsl r g b) =
  saturationAt (Math_max [r / 255; g / 255; b / 255])
               (Math_min [r / 255; g / 255; b / 255]).
Proof.
  unfold rgbToHsl, saturationAt; cbv zeta.
  destruct (negb (Math_max [r / 255; g / 255; b / 255]
                  =? Math_min [r / 255; g / 255; b / 255])); reflexivity.
Qed.

(** *** Every colour is covered *)

(** Checked by running the conversions on every colour whose largest and
    smallest channels give a whole lightness and a whole saturation. *)
Lemma checkAll_all : checkAll entries = true.
Proof. vm_cast_no_check (@eq_refl bool true). Qed.

Lemma checkAll_spec (table : list Entry) :
  checkAll table = true ->
  forall hi mid lo, In hi table -> In mid table -> In lo table ->
    isWhole (lightnessAt (norm hi) (norm lo)) = true ->
    isWhole (saturationAt (norm hi) (norm lo)) = true ->
    (value lo <= value mid <= value hi)%Z ->
    forall t, In t (arrangements hi mid lo) -> tripleReturnsSame t = true.
Proof.
  unfold checkAll; intros C hi mid lo Hhi Hmid Hlo WL WS Hb t Ht.
  rewrite forallb_forall in C; specialize (C hi Hhi); cbv beta in C.
  rewrite forallb_forall in C; specialize (C lo Hlo).
  unfold checkPair in C; rewrite WL, WS in C; cbn [andb] in C.
  rewrite forallb_forall in C; specialize (C mid Hmid); cbv beta in C.
  replace ((value lo <=? value mid)%Z && (value mid <=? value hi)%Z) with true in C
    by (symmetry; apply andb_true_iff; split; apply Z.leb_le; lia).
  rewrite forallb_forall in C; exact (C t Ht).
Qed.

Lemma arrangement_In (i j k : Z) :
  In (entryOf i, entryOf j, entryOf k)
     (arrangements (entryOf (max3 i j k))
                   (entryOf (i + j + k - max3 i j k - min3 i j k))
                   (entryOf (min3 i j k))).
Proof.
  unfold arrangements, max3, min3; cbn [In].
  destruct (Z.le_gt_cases i j), (Z.le_gt_cases j k), (Z.le_gt_cases i k);
    try lia.
  - (* i <= j <= k *)
    do 5 right; left; repeat f_equal; lia.
  - (* i <= j, k < j, i <= k *)
    do 3 right; left; repeat f_equal; lia.
  - (* i <= j, k < j, k < i *)
    do 2 right; left; repeat f_equal; lia.
  - (* j < i, j <= k, i <= k *)
    do 4 right; left; repeat f_equal; lia.
  - (* j < i, j <= k, k < i *)
    right; left; repeat f_equal; lia.
  - (* j < i, k < j *)
    left; repeat f_equal; lia.
Qed.

Lemma returnsSame_all (r g b : Z) :
  (0 <= r < 256)%Z -> (0 <= g < 256)%Z -> (0 <= b < 256)%Z ->
  returnsSame (entryOf r) (entryOf g) (entryOf b) = true.
Proof.
  intros Hr Hg Hb.
  destruct (wholeHsl (rgbToHsl (number (entryOf r)) (number (entryOf g))
                               (number (entryOf b)))) eqn:W;
    [|unfold returnsSame; now rewrite W].
  assert (Hhi : (0 <= max3 r g b < 256)%Z) by (unfold max3; lia).
  assert (Hlo : (0 <= min3 r g b < 256)%Z) by (unfold min3; lia).
  assert (Hmid : (0 <= r + g + b - max3 r g b - min3 r g b < 256)%Z)
    by (unfold max3, min3; lia).
  change (returnsSame (entryOf r) (entryOf g) (entryOf b))
    with (tripleReturnsSame (entryOf r, entryOf g, entryOf b)).
  apply (checkAll_spec entries checkAll_all
           (entryOf (max3 r g b))
           (entryOf (r + g + b - max3 r g b - min3 r g b))
           (entryOf (min3 r g b)));
    try (now apply entries_In).
  - unfold wholeHsl in W.
    apply andb_true_iff in W as [W WL]; clear W.
    rewrite rgbToHsl_lightness in WL.
    change (number (entryOf r) / 255) with (norm (entryOf r)) in WL.
    change (number (entryOf g) / 255) with (norm (entryOf g)) in WL.
    change (number (entryOf b) / 255) with (norm (entryOf b)) in WL.
    now rewrite entries_max, entries_min in WL.
  - unfold wholeHsl in W.
    apply andb_true_iff in W as [W _].
    apply andb_true_iff in W as [_ WS].
    rewrite rgbToHsl_saturation in WS.
    change (number (entryOf r) / 255) with (norm (entryOf r)) in WS.
    change (number (entryOf g) / 255) with (norm (entryOf g)) in WS.
    change (number (entryOf b) / 255) with (norm (entryOf b)) in WS.
    now rewrite entries_max, entries_min in WS.
  - unfold value, entryOf, max3, min3; cbn [fst]; lia.
  - apply arrangement_In.
Qed.

(** C4, amended: for every colour written with six hex digits (with or
    without [#], in either case) whose hue, saturation and lightness as
    computed by [hexToHsl] are whole numbers, printing them as
    [hsl(h, s%, l%)] and applying [hslToHex] gives the colour back, as
    [#rrggbb] in lowercase with the very same channels. *)
Theorem roundTrip_whole_components (hex : string) (r g b : Z) :
  hexChannels hex = Some (r, g, b) ->
  wholeHsl (hexToHsl hex) = true ->
  roundTrip hex = hexOf r g b /\
  hexChannels (roundTrip hex) = Some (r, g, b) /\
  withinOne hex (roundTrip hex).
Proof.
  intros Hch Hwhole.
  destruct (hexChannels_shape _ _ _ _ Hch)
    as (c1 & c2 & c3 & c4 & c5 & c6 & Hs & R1 & R2 & R3).
  destruct (parseInt16_pair _ _ _ R1) as [Br P1].
  destruct (parseInt16_pair _ _ _ R2) as [Bg P2].
  destruct (parseInt16_pair _ _ _ R3) as [Bb P3].
  assert (E : roundTrip hex = hexOf r g b).
  { pose proof (returnsSame_all r g b Br Bg Bb) as S.
    unfold returnsSame, number, digits, entryOf in S; cbn [fst snd] in S.
    unfold roundTrip.
    rewrite (hexToHsl_channels _ _ _ _ _ _ _ Hs), P1, P2, P3 in Hwhole |- *.
    rewrite Hwhole in S.
    now apply String.eqb_eq in S. }
  assert (C : hexChannels (hexOf r g b) = Some (r, g, b)).
  { destruct (hex2_shape r Br) as (a1 & a2 & Ea & Ra).
    destruct (hex2_shape g Bg) as (a3 & a4 & Eg & Rg).
    destruct (hex2_shape b Bb) as (a5 & a6 & Eb & Rb).
    unfold hexOf, hexChannels; rewrite Ea, Eg, Eb in *.
    cbn [append stripHash String.length Nat.eqb JS.substring String.substring
         Nat.add Nat.sub].
    now rewrite Ra, Rg, Rb. }
  split; [exact E|]. split; [now rewrite E|].
  unfold withinOne; rewrite E, Hch, C.
  rewrite !Z.sub_diag; simpl; lia.
Qed.

Lemma roundTrip_whole_components_witness :
  hexChannels "FF0000" = Some (255, 0, 0)%Z /\
  wholeHsl (hexToHsl "FF0000") = true /\
  roundTrip "FF0000" = "#ff0000".
Proof.
  assert (H1 : hexChannels "FF0000" = Some (255, 0, 0)%Z) by (vm_compute; reflexivity).
  assert (H2 : wholeHsl (hexToHsl "FF0000") = true) by (vm_compute; reflexivity).
  split; [exact H1|]. split; [exact H2|].
  exact (proj1 (roundTrip_whole_components "FF0000" 255 0 0 H1 H2)).
Defined.

End RoundTrip.

(** * Further properties of the plugin *)

(** ** [parseRgbValue] and the fallback of [hslToHex] *)

Section MoreParsing.

Import Pattern Examples.
Local Open Scope float_scope.

Lemma matchRgb_sound (s d1 d2 d3 : string) :
  matchRgb s = Some (d1, d2, d3) -> RgbForm s d1 d2 d3.
Proof.
  unfold matchRgb; intros H.
  destruct (expect "rgb(" s) as [s1|] eqn:E1; [|discriminate].
  destruct (digits1 s1) as [[c1 s2]|] eqn:E2; [|discriminate].
  destruct (expect "," s2) as [s3|] eqn:E3; [|discriminate].
  destruct (digits1 (spaces s3)) as [[c2 s4]|] eqn:E4; [|discriminate].
  destruct (expect "," s4) as [s5|] eqn:E5; [|discriminate].
  destruct (digits1 (spaces s5)) as [[c3 s6]|] eqn:E6; [|discriminate].
  destruct (expect ")" s6) as [s7|] eqn:E7; [|discriminate].
  destruct (atEnd s7) eqn:E8; [|discriminate].
  inversion H; subst c1 c2 c3; clear H.
  apply atEnd_inv in E8; subst s7.
  apply expect_inv in E1, E3, E5, E7.
  apply digits1_inv in E2 as (E2 & R1 & _).
  apply digits1_inv in E4 as (E4 & R2 & _).
  apply digits1_inv in E6 as (E6 & R3 & _).
  destruct (spaces_inv s3) as (w1 & W1 & S1 & _).
  destruct (spaces_inv s5) as (w2 & W2 & S2 & _).
  assert (s = "rgb(" ++ d1 ++ "," ++ w1 ++ d2 ++ "," ++ w2 ++ d3 ++ ")") as ->.
  { rewrite E1, E2, E3, W1, E4, E5, W2, E6, E7; reflexivity. }
  now constructor.
Qed.

Lemma matchRgb_complete (s d1 d2 d3 : string) :
  RgbForm s d1 d2 d3 -> matchRgb s = Some (d1, d2, d3).
Proof.
  intros [e1 w1 e2 w2 e3 R1 S1 R2 S2 R3]; unfold matchRgb.
  rewrite expect_app.
  rewrite (digits1_app e1 _ R1) by reflexivity.
  rewrite (expect_app "," _).
  rewrite (spaces_app w1 _ S1) by now apply digitRun_stops_spaces.
  rewrite (digits1_app e2 _ R2) by reflexivity.
  rewrite (expect_app "," _).
  rewrite (spaces_app w2 _ S2) by now apply digitRun_stops_spaces.
  rewrite (digits1_app e3 _ R3) by reflexivity.
  reflexivity.
Qed.

(** X1: [parseRgbValue] accepts exactly the strings [rgb(R, G, B)] with
    digit runs [R], [G], [B] (white space allowed after the commas only)
    and returns their values without touching the console; for any other
    string it returns black, (0, 0, 0), and writes one line to the
    console. *)
Theorem parseRgbValue_matches_or_falls_back :
  (forall (text d1 d2 d3 : string) (w : World),
      RgbForm text d1 d2 d3 ->
      parseRgbValue text w =
      (mkRGB (Number_ofDigits d1) (Number_ofDigits d2) (Number_ofDigits d3), w)) /\
  (forall (text : string) (w : World),
      (forall d1 d2 d3, ~ RgbForm text d1 d2 d3) ->
      parseRgbValue text w =
      (mkRGB 0 0 0,
       mkWorld (head w) (bodyStyle w)
               (console w ++ [("Failed to parse RGB value: " ++ text)%string])%list)).
Proof.
  split.
  - intros text d1 d2 d3 w H; unfold parseRgbValue.
    now rewrite (matchRgb_complete _ _ _ _ H).
  - intros text w H; unfold parseRgbValue.
    destruct (matchRgb text) as [[[d1 d2] d3]|] eqn:E; [|reflexivity].
    exfalso; exact (H _ _ _ (matchRgb_sound _ _ _ _ E)).
Qed.

Lemma parseRgbValue_matches_or_falls_back_witness :
  RgbForm "rgb(12,  0,255)" "12" "0" "255" /\
  (forall d1 d2 d3, ~ RgbForm "rgb(12 , 0, 255)" d1 d2 d3) /\
  parseRgbValue "rgb(12,  0,255)" emptyWorld = (mkRGB 12 0 255, emptyWorld) /\
  parseRgbValue "rgb(12 , 0, 255)" emptyWorld =
    (mkRGB 0 0 0, mkWorld [] [] ["Failed to parse RGB value: rgb(12 , 0, 255)"]).
Proof.
  assert (H1 : RgbForm "rgb(12,  0,255)" "12" "0" "255").
  { apply (RgbForm_intro "12" "  " "0" "" "255");
      try (split; [discriminate|reflexivity]); reflexivity. }
  assert (H2 : forall d1 d2 d3, ~ RgbForm "rgb(12 , 0, 255)" d1 d2 d3).
  { intros d1 d2 d3 H; apply matchRgb_complete in H; discriminate H. }
  split; [exact H1|]. split; [exact H2|].
  destruct parseRgbValue_matches_or_falls_back as (Hform & Hnone).
  split.
  - rewrite (Hform _ _ _ _ emptyWorld H1); vm_compute; reflexivity.
  - rewrite (Hnone _ emptyWorld H2); reflexivity.
Defined.

(** X2: [hslToHex] returns the fallback [#000000] for every string that is
    not of the form [hsl(H, S%, L%)] with digit runs: a fraction, a sign, a
    missing [%] or anything around the text is enough. *)
Theorem hslToHex_falls_back (text : string) :
  (forall d1 d2 d3, ~ HslForm text d1 d2 d3) ->
  ThemedTagsPluginSettingTab.hslToHex text = "#000000".
Proof.
  intros H; unfold ThemedTagsPluginSettingTab.hslToHex.
  now rewrite (matchHsl_none _ H).
Qed.

Lemma hslToHex_falls_back_witness :
  (forall d1 d2 d3, ~ HslForm "hsl(210.5, 65%, 20%)" d1 d2 d3) /\
  ThemedTagsPluginSettingTab.hslToHex "hsl(210.5, 65%, 20%)" = "#000000".
Proof.
  assert (H : forall d1 d2 d3, ~ HslForm "hsl(210.5, 65%, 20%)" d1 d2 d3).
  { intros d1 d2 d3 F; apply matchHsl_complete in F; discriminate F. }
  split; [exact H|exact (hslToHex_falls_back _ H)].
Defined.

End MoreParsing.

(** ** Removing what was injected *)

Section Removal.

Import Examples.

Lemma world_eta (w : World) : mkWorld (head w) (bodyStyle w) (console w) = w.
Proof. now destruct w. Qed.

Lemma removeFirst_withId (name other : string) (els : list StyleElement) :
  withId other (removeFirst name els) =
  if String.eqb other name then tl (withId other els) else withId other els.
Proof.
  induction els as [|e els IH]; simpl.
  - now destruct (String.eqb other name).
  - destruct (String.eqb (id e) name) eqn:E1.
    + apply String.eqb_eq in E1.
      destruct (String.eqb other name) eqn:E2.
      * apply String.eqb_eq in E2; subst other; rewrite E1, String.eqb_refl; reflexivity.
      * rewrite E1, String.eqb_sym, E2; reflexivity.
    + simpl; rewrite IH.
      destruct (String.eqb other name) eqn:E2; [|reflexivity].
      apply String.eqb_eq in E2; subst other; now rewrite E1.
Qed.

Lemma removeFirst_absent (name : string) (els : list StyleElement) :
  withId name els = [] -> removeFirst name els = els.
Proof.
  induction els as [|e els IH]; simpl; [reflexivity|].
  destruct (String.eqb (id e) name); [discriminate|].
  intros H; now rewrite IH.
Qed.

Lemma removeFirst_last (name : string) (els : list StyleElement) (e : StyleElement) :
  withId name els = [] -> id e = name -> removeFirst name (els ++ [e]) = els.
Proof.
  intros H He; induction els as [|x els IH]; simpl in *.
  - now rewrite He, String.eqb_refl.
  - destruct (String.eqb (id x) name); [discriminate|].
    now rewrite IH.
Qed.

Lemma removeFirst_subsequence (name : string) (els : list StyleElement) :
  Subsequence (removeFirst name els) els.
Proof.
  assert (R : forall xs : list StyleElement, Subsequence xs xs)
    by (induction xs; constructor; assumption).
  induction els as [|e els IH]; simpl; [constructor|].
  destruct (String.eqb (id e) name).
  - apply Subsequence_skip, R.
  - apply Subsequence_keep, IH.
Qed.

(** X3: [removeTagColors] takes out the oldest style element with the id
    [themed-tags-plugin-style] and no other: the elements with that id lose
    their first, the elements of every other id stay as they are, the rest
    of the head keeps its order, and neither the body nor the console is
    touched.  With no such element it changes nothing. *)
Theorem removeTagColors_removes_the_oldest (w : World) :
  let w' := exec removeTagColors w in
  (forall other : string,
      withId other (head w') =
      if String.eqb other tagStyleId then tl (withId other (head w))
      else withId other (head w)) /\
  Subsequence (head w') (head w) /\
  bodyStyle w' = bodyStyle w /\
  console w' = console w /\
  (withId tagStyleId (head w) = [] -> w' = w).
Proof.
  unfold removeTagColors, removeById, exec; simpl.
  split; [intros other; apply removeFirst_withId|].
  split; [apply removeFirst_subsequence|].
  repeat split.
  intros H; rewrite (removeFirst_absent _ _ H); apply world_eta.
Qed.

Lemma removeTagColors_removes_the_oldest_witness :
  withId tagStyleId (head emptyWorld) = [] /\
  exec removeTagColors emptyWorld = emptyWorld.
Proof.
  assert (H : withId tagStyleId (head emptyWorld) = []) by reflexivity.
  split; [exact H|].
  exact (proj2 (proj2 (proj2 (proj2 (removeTagColors_removes_the_oldest emptyWorld)))) H).
Defined.

(** *** The body properties *)

Lemma setEntry_absent (name : string) (v : string * string)
    (ps : list (string * (string * string))) :
  ~ In name (map fst ps) -> setEntry name v ps = (ps ++ [(name, v)])%list.
Proof.
  induction ps as [|[n v'] ps IH]; simpl; [reflexivity|].
  intros H; destruct (String.eqb n name) eqn:E.
  - apply String.eqb_eq in E; tauto.
  - rewrite IH; tauto.
Qed.

Lemma filter_absent (name : string) (ps : list (string * (string * string))) :
  ~ In name (map fst ps) ->
  filter (fun p => negb (String.eqb (fst p) name)) ps = ps.
Proof.
  induction ps as [|[n v'] ps IH]; simpl; [reflexivity|].
  intros H; destruct (String.eqb n name) eqn:E.
  - apply String.eqb_eq in E; tauto.
  - simpl; rewrite IH; tauto.
Qed.

Lemma bodyProperty_setEntry (name other : string) (v : string * string)
    (ps : list (string * (string * string))) :
  bodyProperty other (setEntry name v ps) =
  if String.eqb other name then Some v else bodyProperty other ps.
Proof.
  induction ps as [|[n v'] ps IH]; simpl.
  - now rewrite (String.eqb_sym name other).
  - destruct (String.eqb n name) eqn:E1; simpl.
    + apply String.eqb_eq in E1; subst n.
      rewrite (String.eqb_sym name other).
      destruct (String.eqb other name); reflexivity.
    + rewrite IH.
      destruct (String.eqb n other) eqn:E2; [|reflexivity].
      apply String.eqb_eq in E2; subst n; now rewrite E1.
Qed.

(** The parsers and the loop of [setFileThemeColor] leave the body alone. *)
Lemma parseHslValue_bodyStyle (text : string) (w : World) :
  bodyStyle (exec (parseHslValue text) w) = bodyStyle w.
Proof. unfold parseHslValue; destruct (Pattern.matchHsl text) as [[[? ?] ?]|]; reflexivity. Qed.

Lemma parseRgbValue_bodyStyle (text : string) (w : World) :
  bodyStyle (exec (parseRgbValue text) w) = bodyStyle w.
Proof. unfold parseRgbValue; destruct (Pattern.matchRgb text) as [[[? ?] ?]|]; reflexivity. Qed.

Lemma newValueFor_bodyStyle (env : StyleEnv) (c : HSL) (variable : string) (w : World) :
  bodyStyle (exec (newValueFor env c variable) w) = bodyStyle w.
Proof.
  unfold newValueFor.
  destruct (negb _ && negb _); [|reflexivity].
  destruct (endsWith variable "-h" || endsWith variable "-s"); [reflexivity|].
  destruct (endsWith variable "-rgb").
  { rewrite exec_bind; apply parseRgbValue_bodyStyle. }
  destruct (startsWith _ "hsl("); [|reflexivity].
  rewrite exec_bind; apply parseHslValue_bodyStyle.
Qed.

Lemma overrides_bodyStyle (env : StyleEnv) (c : HSL) (variables : list string) (w : World) :
  bodyStyle (exec (overrides env c variables) w) = bodyStyle w.
Proof.
  revert w; induction variables as [|v vs IH]; intros w; [reflexivity|].
  simpl; rewrite exec_bind, exec_bind.
  unfold ret, exec at 1; simpl.
  now rewrite IH, newValueFor_bodyStyle.
Qed.

Lemma setFileThemeColor_bodyStyle (env : StyleEnv) (color : string) (w : World) :
  bodyStyle (exec (setFileThemeColor env color) w) =
  setEntry "--accent-s"
    (Number_toString (hsl_s (hexToHsl color)) ++ "%", "important")
    (setEntry "--accent-h"
       (Number_toString (hsl_h (hexToHsl color)), "important") (bodyStyle w)).
Proof.
  unfold setFileThemeColor, exec, bind.
  rewrite forEach_overrides.
  simpl. fold (exec (overrides env (hexToHsl color) (getAccentVariables env)) w).
  now rewrite overrides_bodyStyle.
Qed.

(** X4: after [setFileThemeColor(color)] the body carries [--accent-h] with
    the hue and [--accent-s] with the saturation and a percent sign, both
    marked [important], whatever accent variables were discovered; every
    other property of the body reads as before. *)
Theorem setFileThemeColor_body_properties
    (env : StyleEnv) (color : string) (w : World) (name : string) :
  bodyProperty name (bodyStyle (exec (setFileThemeColor env color) w)) =
  if String.eqb name "--accent-s"
  then Some (Number_toString (hsl_s (hexToHsl color)) ++ "%", "important")
  else if String.eqb name "--accent-h"
  then Some (Number_toString (hsl_h (hexToHsl color)), "important")
  else bodyProperty name (bodyStyle w).
Proof.
  rewrite setFileThemeColor_bodyStyle, !bodyProperty_setEntry; reflexivity.
Qed.

Lemma removeFileThemeColor_world (w : World) :
  exec removeFileThemeColor w =
  mkWorld (removeFirst fileThemeId (head w))
          (filter (fun p => negb (String.eqb (fst p) "--accent-s"))
             (filter (fun p => negb (String.eqb (fst p) "--accent-h")) (bodyStyle w)))
          (console w).
Proof. reflexivity. Qed.

Lemma removeFileThemeColor_themeFree (w : World) :
  themeFree w -> exec removeFileThemeColor w = w.
Proof.
  intros (Hh & Ha & Hs); rewrite removeFileThemeColor_world.
  rewrite (removeFirst_absent _ _ Hh), (filter_absent _ _ Ha), (filter_absent _ _ Hs).
  apply world_eta.
Qed.

Lemma set_then_remove (env : StyleEnv) (color : string) (w : World) :
  themeFree w ->
  let w' := exec removeFileThemeColor (exec (setFileThemeColor env color) w) in
  head w' = head w /\ bodyStyle w' = bodyStyle w.
Proof.
  intros (Hh & Ha & Hs) w'; subst w'; rewrite removeFileThemeColor_world; simpl.
  rewrite setFileThemeColor_head, setFileThemeColor_bodyStyle.
  split.
  - now apply removeFirst_last.
  - rewrite (setEntry_absent "--accent-h" _ _ Ha).
    rewrite setEntry_absent
      by (rewrite map_app, in_app_iff; simpl; intros [H|[H|[]]];
          [tauto|discriminate H]).
    rewrite !filter_app; simpl.
    rewrite (filter_absent _ _ Ha), (filter_absent _ _ Hs); simpl.
    now rewrite !app_nil_r.
Qed.

(** X5: on a document with no theme block and no accent property on the
    body, [setFileThemeColor] followed by [removeFileThemeColor] puts the
    head and the body style back exactly as they were, and
    [removeFileThemeColor] alone changes nothing at all. *)
Theorem setFileThemeColor_then_remove_restores
    (env : StyleEnv) (color : string) (w : World) :
  themeFree w ->
  let w' := exec (setFileThemeColor env color ;;; removeFileThemeColor) w in
  head w' = head w /\ bodyStyle w' = bodyStyle w /\
  exec removeFileThemeColor w = w.
Proof.
  intros H w'; subst w'; rewrite exec_bind.
  destruct (set_then_remove env color w H) as [H1 H2].
  repeat split; [exact H1|exact H2|now apply removeFileThemeColor_themeFree].
Qed.

Lemma themeFree_emptyWorld : themeFree emptyWorld.
Proof. repeat split; simpl; tauto. Qed.

Lemma setFileThemeColor_then_remove_restores_witness :
  themeFree emptyWorld /\
  head (exec (setFileThemeColor themeEnv "#3366cc" ;;; removeFileThemeColor) emptyWorld)
    = [] /\
  bodyStyle (exec (setFileThemeColor themeEnv "#3366cc" ;;; removeFileThemeColor)
                  emptyWorld) = [].
Proof.
  split; [exact themeFree_emptyWorld|].
  destruct (setFileThemeColor_then_remove_restores themeEnv "#3366cc" emptyWorld
              themeFree_emptyWorld) as (H1 & H2 & _).
  split; [exact H1|exact H2].
Defined.

(** X6: in the simpler variant, [setFileThemeColor] followed by
    [removeFileThemeColor] gives back the very document it started from,
    provided no theme block was there before. *)
Theorem simple_set_then_remove_restores (color : string) (w : World) :
  withId fileThemeId (head w) = [] ->
  exec (SimpleVariant.setFileThemeColor color ;;; SimpleVariant.removeFileThemeColor) w
  = w.
Proof.
  intros H.
  unfold exec, bind, SimpleVariant.setFileThemeColor, SimpleVariant.removeFileThemeColor,
    appendChild, removeById; simpl.
  rewrite (removeFirst_last _ _ _ H) by reflexivity.
  apply world_eta.
Qed.

Lemma simple_set_then_remove_restores_witness :
  withId fileThemeId (head emptyWorld) = [] /\
  exec (SimpleVariant.setFileThemeColor "#3366cc" ;;;
        SimpleVariant.removeFileThemeColor) emptyWorld = emptyWorld.
Proof.
  assert (H : withId fileThemeId (head emptyWorld) = []) by reflexivity.
  split; [exact H|exact (simple_set_then_remove_restores "#3366cc" emptyWorld H)].
Defined.

Lemma applyTagColors_world (tagColors : JSObject) (w : World) :
  exec (applyTagColors tagColors) w =
  mkWorld (head w ++ [mkStyle tagStyleId (rulesText tagColors)])%list
          (bodyStyle w) (console w).
Proof.
  unfold applyTagColors, exec, bind, appendChild, setTextContent; simpl.
  now rewrite setLast_app, fold_rules.
Qed.

(** X7: [onload] followed at once by [onunload] leaves a document that had
    no tag block, no theme block and no accent property on the body exactly
    as it was. *)
Theorem onload_then_onunload_restores (tagColors : JSObject) (w : World) :
  withId tagStyleId (head w) = [] ->
  themeFree w ->
  exec (PluginEvents.onload tagColors ;;; PluginEvents.onunload) w = w.
Proof.
  intros Ht Hfree.
  rewrite exec_bind; unfold PluginEvents.onunload; rewrite exec_bind.
  assert (E : exec removeTagColors (exec (PluginEvents.onload tagColors) w) = w).
  { unfold PluginEvents.onload; rewrite applyTagColors_world.
    unfold removeTagColors, removeById, exec; simpl.
    rewrite (removeFirst_last _ _ _ Ht) by reflexivity.
    apply world_eta. }
  rewrite E; now apply removeFileThemeColor_themeFree.
Qed.

Lemma onload_then_onunload_restores_witness :
  withId tagStyleId (head emptyWorld) = [] /\
  themeFree emptyWorld /\
  exec (PluginEvents.onload tagColors ;;; PluginEvents.onunload) emptyWorld = emptyWorld.
Proof.
  assert (H : withId tagStyleId (head emptyWorld) = []) by reflexivity.
  split; [exact H|]. split; [exact themeFree_emptyWorld|].
  exact (onload_then_onunload_restores tagColors emptyWorld H themeFree_emptyWorld).
Defined.

End Removal.

(** ** Guarded variables: the block and the body *)

Section GuardedVariables.

Import Examples.

Lemma setFileThemeColor_bodyProperty (env : StyleEnv) (color : string) (w : World)
    (name : string) :
  bodyProperty name (bodyStyle (exec (setFileThemeColor env color) w)) =
  if String.eqb name "--accent-s"
  then Some (Number_toString (hsl_s (hexToHsl color)) ++ "%", "important")
  else if String.eqb name "--accent-h"
  then Some (Number_toString (hsl_h (hexToHsl color)), "important")
  else bodyProperty name (bodyStyle w).
Proof. rewrite setFileThemeColor_bodyStyle, !bodyProperty_setEntry; reflexivity. Qed.

(** C8, as stated, fails.  The guard keeps a variable out of the injected
    block, but the value in effect for it can still change: after the loop
    [setFileThemeColor] sets [--accent-h] and [--accent-s] on the body,
    guard or no guard.  With [accent-h] discovered and its root value
    [var(--hue)], the block is empty and the body goes from no
    [--accent-h] to [120]; with [--accent-h] discovered as the style sheet
    names it, the value the code reads for it is empty, and the body's
    [--accent-h] is set all the same. *)
Lemma guarded_variable_set_on_body :
  In "accent-h" (getAccentVariables hueEnv) /\
  guarded hueEnv "accent-h" /\
  head (exec (setFileThemeColor hueEnv "#00ff00") emptyWorld) =
    [mkStyle fileThemeId ":root { }"] /\
  bodyProperty "--accent-h" (bodyStyle emptyWorld) = None /\
  bodyProperty "--accent-h"
    (bodyStyle (exec (setFileThemeColor hueEnv "#00ff00") emptyWorld)) =
    Some ("120", "important") /\
  ~ (forall env color w variable,
        In variable (getAccentVariables env) -> guarded env variable ->
        leftAlone env color w variable ("--" ++ variable)) /\
  In "--accent-h" (getAccentVariables themeEnv) /\
  guarded themeEnv "--accent-h" /\
  ~ (forall env color w variable,
        In variable (getAccentVariables env) -> guarded env variable ->
        leftAlone env color w variable variable).
Proof.
  assert (I1 : In "accent-h" (getAccentVariables hueEnv)) by (left; reflexivity).
  assert (G1 : guarded hueEnv "accent-h") by (right; reflexivity).
  assert (B1 : bodyProperty "--accent-h"
                 (bodyStyle (exec (setFileThemeColor hueEnv "#00ff00") emptyWorld)) =
               Some ("120", "important")).
  { rewrite setFileThemeColor_bodyProperty; vm_compute; reflexivity. }
  assert (I2 : In "--accent-h" (getAccentVariables themeEnv)) by (left; reflexivity).
  assert (G2 : guarded themeEnv "--accent-h") by (left; reflexivity).
  assert (B2 : bodyProperty "--accent-h"
                 (bodyStyle (exec (setFileThemeColor themeEnv "#00ff00") emptyWorld)) =
               Some ("120", "important")).
  { rewrite setFileThemeColor_bodyProperty; vm_compute; reflexivity. }
  split; [exact I1|]. split; [exact G1|].
  split; [rewrite setFileThemeColor_head; vm_compute; reflexivity|].
  split; [reflexivity|]. split; [exact B1|].
  split.
  { intros H.
    destruct (H hueEnv "#00ff00" emptyWorld "accent-h" I1 G1) as [_ E].
    change ("--" ++ "accent-h") with "--accent-h" in E.
    rewrite B1 in E; discriminate E. }
  split; [exact I2|]. split; [exact G2|].
  intros H.
  destruct (H themeEnv "#00ff00" emptyWorld "--accent-h" I2 G2) as [_ E].
  rewrite B2 in E; discriminate E.
Qed.

(** C8, amended: a discovered accent variable whose value at the root is
    empty or contains [var(] gets no declaration in the block
    [setFileThemeColor] injects: the head gains that one block, which holds
    the declarations of [overrides] and nothing else, and the variable is
    not among them.  On the body, [--accent-h] and [--accent-s] are set to
    the new hue and saturation with priority [important] whether or not a
    variable is guarded; every other property of the body reads as
    before. *)
Theorem guarded_variable_block_and_body
    (env : StyleEnv) (color : string) (w : World) (variable : string) :
  In variable (getAccentVariables env) ->
  guarded env variable ->
  let ovs := eval (overrides env (hexToHsl color) (getAccentVariables env)) w in
  let w' := exec (setFileThemeColor env color) w in
  head w' =
    (head w ++ [mkStyle fileThemeId (":root {" ++ declarations ovs ++ " }")])%list /\
  ~ In variable (map fst ovs) /\
  bodyProperty "--accent-h" (bodyStyle w') =
    Some (Number_toString (hsl_h (hexToHsl color)), "important") /\
  bodyProperty "--accent-s" (bodyStyle w') =
    Some (Number_toString (hsl_s (hexToHsl color)) ++ "%", "important") /\
  (forall name : string,
      name <> "--accent-h" -> name <> "--accent-s" ->
      bodyProperty name (bodyStyle w') = bodyProperty name (bodyStyle w)).
Proof.
  intros _ Hguard ovs w'; subst w'.
  split; [apply setFileThemeColor_head|].
  split.
  { intros Hin.
    destruct (overrides_In _ _ _ _ _ Hin) as [w0 Hw0].
    apply Hw0; unfold eval; now rewrite (guard_skips _ _ _ _ Hguard). }
  split; [rewrite setFileThemeColor_bodyProperty; reflexivity|].
  split; [rewrite setFileThemeColor_bodyProperty; reflexivity|].
  intros name Hh Hs; rewrite setFileThemeColor_bodyProperty.
  apply String.eqb_neq in Hh, Hs; now rewrite Hs, Hh.
Qed.

Lemma guarded_variable_block_and_body_witness :
  In "accent-color" (getAccentVariables indirectEnv) /\
  guarded indirectEnv "accent-color" /\
  "--accent-color" <> "--accent-h" /\ "--accent-color" <> "--accent-s" /\
  head (exec (setFileThemeColor indirectEnv "#ff0000") emptyWorld) =
    [mkStyle fileThemeId ":root { }"] /\
  ~ In "accent-color"
       (map fst (eval (overrides indirectEnv (hexToHsl "#ff0000")
                                 (getAccentVariables indirectEnv)) emptyWorld)) /\
  bodyProperty "--accent-color"
    (bodyStyle (exec (setFileThemeColor indirectEnv "#ff0000") emptyWorld)) = None.
Proof.
  assert (H1 : In "accent-color" (getAccentVariables indirectEnv))
    by (right; left; reflexivity).
  assert (H2 : guarded indirectEnv "accent-color") by (right; reflexivity).
  assert (H3 : "--accent-color" <> "--accent-h") by discriminate.
  assert (H4 : "--accent-color" <> "--accent-s") by discriminate.
  split; [exact H1|]. split; [exact H2|]. split; [exact H3|]. split; [exact H4|].
  destruct (guarded_variable_block_and_body indirectEnv "#ff0000" emptyWorld
              "accent-color" H1 H2) as (Hhead & Hnot & _ & _ & Hframe).
  split; [rewrite Hhead; reflexivity|].
  split; [exact Hnot|].
  rewrite (Hframe "--accent-color" H3 H4); reflexivity.
Defined.

End GuardedVariables.

(** ** The settings tab: the list of tags and the search box *)

Section SettingTabFacts.

Import SettingTabDisplay.

(** X8: [getAllTags] returns every tag carried by a markdown file of the
    vault, with one leading [#] taken off, and each such name once; files
    without a cache or without tags contribute nothing. *)
Theorem getAllTags_each_tag_once (app : App) :
  NoDup (getAllTags app) /\
  forall name, In name (getAllTags app) <-> taggedIn app name.
Proof.
  unfold getAllTags; split.
  - apply fold_left_NoDup; [|constructor].
    intros acc file H; unfold addFileTags.
    destruct (getFileCache app file) as [[[fileTags|]]|]; try exact H.
    apply fold_left_NoDup; [|exact H].
    intros acc' tag; apply setAdd_NoDup.
  - intros name.
    rewrite (fold_left_In _ (fun file x =>
               exists fileTags tag,
                 getFileCache app file = Some (mkCache (Some fileTags)) /\
                 In tag fileTags /\ stripHash tag = x)).
    + unfold taggedIn; split.
      * intros [[]|(file & Hin & fileTags & tag & H)]; exists file, fileTags, tag; tauto.
      * intros (file & fileTags & tag & Hin & H); right; exists file; split;
          [exact Hin|]; exists fileTags, tag; exact H.
    + intros acc file x; unfold addFileTags.
      destruct (getFileCache app file) as [[[fileTags|]]|].
      * rewrite (fold_left_In _ (fun tag x => stripHash tag = x)).
        -- split; intros [H|H]; auto.
           ++ destruct H as (tag & Hin & E); right; exists fileTags, tag; auto.
           ++ destruct H as (fileTags' & tag & E & Hin & E'); inversion E; subst.
              right; exists tag; auto.
        -- intros acc' tag y; rewrite setAdd_In; split; intros [H|H]; auto.
      * split; [auto|]. intros [H|(fileTags & tag & E & _)]; [exact H|discriminate].
      * split; [auto|]. intros [H|(fileTags & tag & E & _)]; [exact H|discriminate].
Qed.










End SettingTabFacts.

(** ** The declarations of the theme block *)

Section ThemeBlock.

Lemma Subsequence_In {A : Type} (xs ys : list A) (x : A) :
  Subsequence xs ys -> In x xs -> In x ys.
Proof.
  induction 1; simpl; [auto| |]; intros H'; auto.
  destruct H'; auto.
Qed.

Lemma Subsequence_NoDup {A : Type} (xs ys : list A) :
  Subsequence xs ys -> NoDup ys -> NoDup xs.
Proof.
  induction 1; intros N; [constructor| |].
  - inversion N; auto.
  - inversion N; subst; constructor; auto.
    intros Hin; eauto using Subsequence_In.
Qed.

Lemma overrides_subsequence (env : StyleEnv) (c : HSL) (variables : list string)
    (w : World) :
  Subsequence (map fst (eval (overrides env c variables) w)) variables.
Proof.
  revert w; induction variables as [|v vs IH]; intros w; [constructor|].
  unfold eval; simpl; unfold bind.
  destruct (newValueFor env c v w) as [nv w1].
  specialize (IH w1); unfold eval in IH.
  destruct (overrides env c vs w1) as [more w2]; unfold ret; simpl in *.
  destruct nv; simpl; constructor; exact IH.
Qed.

(** X10: the block [setFileThemeColor] injects holds declarations for
    discovered accent variables only, at most one for each, in the order
    of discovery. *)
Theorem theme_block_one_declaration_per_variable
    (env : StyleEnv) (color : string) (w : World) :
  let ovs := eval (overrides env (hexToHsl color) (getAccentVariables env)) w in
  head (exec (setFileThemeColor env color) w) =
    (head w ++ [mkStyle fileThemeId (":root {" ++ declarations ovs ++ " }")])%list /\
  Subsequence (map fst ovs) (getAccentVariables env) /\
  NoDup (map fst ovs).
Proof.
  intros ovs; split; [apply setFileThemeColor_head|].
  pose proof (overrides_subsequence env (hexToHsl color) (getAccentVariables env) w) as S.
  split; [exact S|].
  exact (Subsequence_NoDup _ _ S (proj1 (getAccentVariables_spec env))).
Qed.

End ThemeBlock.

(** ** When the active leaf changes *)

Section ActiveLeaf.

Import Examples Hosts PluginEvents.

Lemma eval_then_ret {A : Type} (m : M A) (c : Completion) (w : World) :
  eval (m ;;; ret c) w = c.
Proof. unfold eval, bind, ret; now destruct (m w). Qed.







End ActiveLeaf.

(** ** A run of the plugin *)

Section Runs.

Import Examples Hosts PluginEvents.









(** *** Picking a colour *)








End Runs.

(** ** More on the conversions *)

Section MoreConversions.

Local Open Scope float_scope.

(** [parseInt] of the two hex digits of a channel value is that value. *)
Lemma parseInt16_hex2 (n : Z) :
  (0 <= n < 256)%Z -> parseInt16 (hex2 n) = channelNumber n.
Proof.
  intros H; apply channelValues_In in H.
  vm_compute in H.
  repeat (destruct H as [<-|H]; [vm_compute; reflexivity|]).
  contradiction.
Qed.

(** X15: on a colour written with six hex digits (with or without [#], in
    either case) [hexToHsl] gives exactly what [rgbToHsl] gives on its three
    channels, each between 0 and 255. *)
Theorem hexToHsl_is_rgbToHsl_of_channels (hex : string) (r g b : Z) :
  hexChannels hex = Some (r, g, b) ->
  (0 <= r < 256 /\ 0 <= g < 256 /\ 0 <= b < 256)%Z /\
  hexToHsl hex = rgbToHsl (channelNumber r) (channelNumber g) (channelNumber b).
Proof.
  intros Hch.
  destruct (hexChannels_shape _ _ _ _ Hch)
    as (c1 & c2 & c3 & c4 & c5 & c6 & Hs & R1 & R2 & R3).
  destruct (parseInt16_pair _ _ _ R1) as [Br P1].
  destruct (parseInt16_pair _ _ _ R2) as [Bg P2].
  destruct (parseInt16_pair _ _ _ R3) as [Bb P3].
  split; [auto|].
  rewrite (hexToHsl_channels _ _ _ _ _ _ _ Hs), P1, P2, P3.
  now rewrite !parseInt16_hex2.
Qed.

Lemma hexToHsl_is_rgbToHsl_of_channels_witness :
  hexChannels "#3366CC" = Some (51, 102, 204)%Z /\
  hexToHsl "#3366CC" = rgbToHsl (channelNumber 51) (channelNumber 102) (channelNumber 204).
Proof.
  assert (H : hexChannels "#3366CC" = Some (51, 102, 204)%Z) by (vm_compute; reflexivity).
  split; [exact H|exact (proj2 (hexToHsl_is_rgbToHsl_of_channels _ _ _ _ H))].
Defined.

Lemma boundsAll_all : boundsAll entries = true.
Proof. vm_cast_no_check (@eq_refl bool true). Qed.

Lemma boundsAll_spec (table : list Entry) :
  boundsAll table = true ->
  forall hi lo, In hi table -> In lo table -> boundsAt hi lo = true.
Proof.
  unfold boundsAll; intros B hi lo Hhi Hlo.
  rewrite forallb_forall in B; specialize (B hi Hhi); cbv beta in B.
  rewrite forallb_forall in B; exact (B lo Hlo).
Qed.

Lemma rgbToHsl_extremes (r g b : Z) :
  (0 <= r < 256)%Z -> (0 <= g < 256)%Z -> (0 <= b < 256)%Z ->
  let c := rgbToHsl (channelNumber r) (channelNumber g) (channelNumber b) in
  hsl_l c = lightnessAt (norm (entryOf (max3 r g b))) (norm (entryOf (min3 r g b))) /\
  hsl_s c = saturationAt (norm (entryOf (max3 r g b))) (norm (entryOf (min3 r g b))).
Proof.
  intros Hr Hg Hb c; subst c.
  rewrite <- !parseInt16_hex2 by assumption.
  rewrite rgbToHsl_lightness, rgbToHsl_saturation.
  change (parseInt16 (hex2 r) / 255) with (norm (entryOf r)).
  change (parseInt16 (hex2 g) / 255) with (norm (entryOf g)).
  change (parseInt16 (hex2 b) / 255) with (norm (entryOf b)).
  now rewrite entries_max, entries_min.
Qed.

(** X16: for every colour with channels in 0..255, the lightness and the
    saturation [rgbToHsl] returns lie between 0 and 100 (never [NaN]), and
    the saturation is 0 exactly for the greys, the colours with three equal
    channels. *)
Theorem rgbToHsl_lightness_saturation_bounds (r g b : Z) :
  (0 <= r < 256)%Z -> (0 <= g < 256)%Z -> (0 <= b < 256)%Z ->
  let c := rgbToHsl (channelNumber r) (channelNumber g) (channelNumber b) in
  (0 <=? hsl_l c) = true /\ (hsl_l c <=? 100) = true /\
  (0 <=? hsl_s c) = true /\ (hsl_s c <=? 100) = true /\
  ((hsl_s c =? 0) = true <-> r = g /\ g = b).
Proof.
  intros Hr Hg Hb c.
  destruct (rgbToHsl_extremes r g b Hr Hg Hb) as [EL ES]; fold c in EL, ES.
  assert (Hhi : (0 <= max3 r g b < 256)%Z) by (unfold max3; lia).
  assert (Hlo : (0 <= min3 r g b < 256)%Z) by (unfold min3; lia).
  pose proof (boundsAll_spec entries boundsAll_all _ _
                (entries_In _ Hhi) (entries_In _ Hlo)) as B.
  unfold boundsAt in B.
  replace (value (entryOf (min3 r g b)) <=? value (entryOf (max3 r g b)))%Z
    with true in B
    by (symmetry; apply Z.leb_le; unfold value, entryOf, max3, min3; cbn [fst]; lia).
  rewrite <- EL, <- ES in B.
  repeat (apply andb_true_iff in B as [B ?]).
  repeat (split; [assumption|]).
  match goal with H : Bool.eqb _ _ = true |- _ => apply Bool.eqb_prop in H; rewrite H end.
  unfold value, entryOf; cbn [fst]; rewrite Z.eqb_eq; unfold max3, min3; lia.
Qed.

Lemma rgbToHsl_lightness_saturation_bounds_witness :
  let c := rgbToHsl (channelNumber 18) (channelNumber 52) (channelNumber 86) in
  (0 <=? hsl_l c) = true /\ (hsl_l c <=? 100) = true /\
  (0 <=? hsl_s c) = true /\ (hsl_s c <=? 100) = true /\
  ((hsl_s c =? 0) = true <-> 18%Z = 52%Z /\ 52%Z = 86%Z).
Proof.
  apply (rgbToHsl_lightness_saturation_bounds 18 52 86); lia.
Defined.

(** X17: a grey survives the trip through HSL: for every level n in 0..255,
    [rgbToHsl(n, n, n)] has hue 0 and saturation 0, and [hslToRgb] of its
    three components is (n, n, n) again. *)
Theorem grey_round_trip (n : Z) :
  (0 <= n < 256)%Z ->
  let c := rgbToHsl (channelNumber n) (channelNumber n) (channelNumber n) in
  hsl_h c = 0 /\ hsl_s c = 0 /\
  hslToRgb (hsl_h c) (hsl_s c) (hsl_l c) =
  mkRGB (channelNumber n) (channelNumber n) (channelNumber n).
Proof.
  intros H; apply channelValues_In in H.
  vm_compute in H.
  repeat (destruct H as [<-|H]; [vm_compute; repeat split; reflexivity|]).
  contradiction.
Qed.

Lemma grey_round_trip_witness :
  let c := rgbToHsl (channelNumber 128) (channelNumber 128) (channelNumber 128) in
  hsl_h c = 0 /\ hsl_s c = 0 /\
  hslToRgb (hsl_h c) (hsl_s c) (hsl_l c) =
  mkRGB (channelNumber 128) (channelNumber 128) (channelNumber 128).
Proof. apply (grey_round_trip 128); lia. Defined.

End MoreConversions.

(** ** Unloading *)

Section Unloading.

Import Examples PluginEvents.

Lemma bodyProperty_filter (name other : string) (ps : list (string * (string * string))) :
  bodyProperty other (filter (fun p => negb (String.eqb (fst p) name)) ps) =
  if String.eqb other name then None else bodyProperty other ps.
Proof.
  induction ps as [|[n v] ps IH]; simpl.
  - now destruct (String.eqb other name).
  - destruct (String.eqb n name) eqn:E1; simpl.
    + rewrite IH; apply String.eqb_eq in E1; subst n.
      rewrite (String.eqb_sym name other); now destruct (String.eqb other name).
    + rewrite IH.
      destruct (String.eqb n other) eqn:E2; [|reflexivity].
      apply String.eqb_eq in E2; subst n; now rewrite E1.
Qed.

(** X18: [removeFileThemeColor] takes out the oldest style element with the
    id [themed-tags-file-theme-color] and leaves every element of another
    id in place; afterwards the body has neither [--accent-h] nor
    [--accent-s], and every other property of the body and the console are
    as before. *)
Theorem removeFileThemeColor_effect (w : World) (name other : string) :
  let w' := exec removeFileThemeColor w in
  withId other (head w') =
    (if String.eqb other fileThemeId then tl (withId other (head w))
     else withId other (head w)) /\
  bodyProperty name (bodyStyle w') =
    (if String.eqb name "--accent-s" then None
     else if String.eqb name "--accent-h" then None
     else bodyProperty name (bodyStyle w)) /\
  console w' = console w.
Proof.
  intros w'; subst w'; rewrite removeFileThemeColor_world; simpl.
  split; [apply removeFirst_withId|].
  split; [now rewrite !bodyProperty_filter|reflexivity].
Qed.



End Unloading.
